(** * Voltage-control agent: replay memory, state snapshots, reward shaping
      and the dueling double-Q network.

    A shallow embedding of [memory.py], [state.py] (with the equality
    methods of [elements.py]), the reward, the schedule and the training
    code of [environment.py], the forward pass and the copies of the
    variables of [neural_network.py], the pool of actions of
    [dss_engine.py], the greedy choice of [agent.py] and the constants of
    [global_configuration.py].

    Conventions.
    - A Python call that may raise is a function into [result]; the
      exception class is kept.
    - Python [float]s of the reward and of the element states are exact
      rationals ([Q]); the tensors of the network are real numbers ([R]),
      since the output activation ([tf.nn.swish]) is not rational.  The sums
      of rewards and the scalars of the elements are exact; NaN and the
      infinities are outside the model.
    - Where [calculate_reward] compares voltages, the outcome of the
      comparison selects a branch and depends on the rounding of binary64:
      there every number is read as the binary64 number nearest to it and
      every operation rounds its result ([fl], [fsub], [fmul], [fmean],
      [fround]).  [Bus.__eq__] only tests two rounded means for equality,
      and two decimals of three digits are the same exactly when the
      binary64 numbers nearest to them are: there the decimals are compared.
    - Library calls ([collections.deque], [numpy.random.choice],
      [statistics.mean], [round], [MinMaxScaler.transform], [tf.matmul],
      [tf.math.reduce_mean], [numpy.argmax], [copy.deepcopy]) are written
      out after their documented behaviour. *)

From Stdlib Require Import String Ascii.
From Stdlib Require Import List Arith Lia Bool.
From Stdlib Require Import ZArith QArith Qabs Qround.
From Stdlib Require Import Permutation Factorial.
From Stdlib Require Import Reals Lra.
Import ListNotations.

Close Scope R_scope.
Close Scope Q_scope.
Close Scope Z_scope.
Open Scope nat_scope.

Set Implicit Arguments.

(** ** Exceptions *)

Inductive PyError : Type :=
| ValueError        (* numpy: sample larger than population *)
| AttributeError    (* attribute access on [None] *)
| TypeError         (* iteration over [None], [float] of a non-scalar *)
| StatisticsError   (* [statistics.mean] of an empty sequence *)
| IndexError.       (* index out of range, too many indices *)

Inductive result (A : Type) : Type :=
| Ok (a : A)
| Raise (e : PyError).

Arguments Ok {A} a.
Arguments Raise {A} e.

Definition bind {A B : Type} (r : result A) (k : A -> result B) : result B :=
  match r with
  | Ok a => k a
  | Raise e => Raise e
  end.

Notation "x <- r ;; k" := (bind r (fun x => k))
  (at level 61, r at next level, right associativity).

Definition returns {A : Type} (r : result A) : Prop := exists a, r = Ok a.

(** ** memory.py *)

Module Memory.

Section WithItem.

Variable item : Type.

(** [collections.deque(maxlen=size)]: the items, oldest first. *)
Record deque : Type := mkDeque { maxlen : nat; items : list item }.

(** [deque.append]: put the item at the right end, then drop the left end
  when the bound is exceeded. *)
Definition deque_append (d : deque) (x : item) : deque :=
let l := items d ++ [x] in
mkDeque (maxlen d) (if maxlen d <? length l then tl l else l).

Record Memory : Type := mkMemory { _memory : deque }.

(** [Memory.__init__] *)
Definition init (size : nat) : Memory := mkMemory (mkDeque size []).

(** [Memory.add] *)
Definition add (m : Memory) (x : item) : Memory :=
mkMemory (deque_append (_memory m) x).

(** [Memory.__len__] *)
Definition len (m : Memory) : nat := length (items (_memory m)).

(** [numpy.random.choice(numpy.arange(pop_size), size=size, replace=False)].
  The generator draws [permutation], a shuffle of [0 .. pop_size-1], and
  the answer is its first [size] entries; a sample larger than the
  population is refused. *)
Definition random_choice (permutation : list nat) (pop_size size : nat)
: result (list nat) :=
if pop_size <? size then Raise ValueError
else Ok (firstn size permutation).

(** [self._memory[i]] *)
Definition getitem (d : deque) (i : nat) : result item :=
match nth_error (items d) i with
| Some x => Ok x
| None => Raise IndexError
end.

Fixpoint collect (d : deque) (idx : list nat) : result (list item) :=
match idx with
| [] => Ok []
| i :: rest =>
    x <- getitem d i ;;
    xs <- collect d rest ;;
    Ok (x :: xs)
end.

(** [Memory.sample]; [permutation] is the draw of the generator. *)
Definition sample (m : Memory) (permutation : list nat) (batch_size : nat)
: result (list item) :=
random_indexes <- random_choice permutation (len m) batch_size ;;
collect (_memory m) random_indexes.

(** All insertions of a sequence, in order. *)
Definition add_all (m : Memory) (xs : list item) : Memory :=
fold_left add xs m.

End WithItem.

End Memory.

(** ** Numbers shared by state.py, elements.py and environment.py *)

(** [statistics.mean]: exact mean, [StatisticsError] on no data. *)
Definition mean (data : list Q) : result Q :=
  match data with
  | [] => Raise StatisticsError
  | _ :: _ => Ok (fold_right Qplus 0%Q data / inject_Z (Z.of_nat (length data)))%Q
  end.

(** Nearest integer, a tie going to the even neighbour. *)
Definition round_half_even (q : Q) : Z :=
  let f := Qfloor q in
  match ((q - inject_Z f) ?= (1 # 2))%Q with
  | Lt => f
  | Gt => (f + 1)%Z
  | Eq => if Z.even f then f else (f + 1)%Z
  end.

(** [round(x, ndigits)] of a float. *)
Definition round (x : Q) (ndigits : nat) : Q :=
  let scale := inject_Z (10 ^ Z.of_nat ndigits) in
  (inject_Z (round_half_even (x * scale)) / scale)%Q.

(** [==] of two floats. *)
Definition float_eq (x y : Q) : bool := Qeq_bool x y.

(** ** Binary64

    The floats of CPython are IEEE 754 binary64 numbers: 53 binary digits,
    least exponent [-1074], results rounded to nearest, a tie going to the
    even significand.  A finite float is a rational; [fl q] is the float
    nearest to the rational [q].  No bound is put on the exponent from
    above: the numbers here are voltages in per unit, far from [2^1024]. *)

(** [2^e] *)
Definition pow2 (e : Z) : Q :=
  if (0 <=? e)%Z then inject_Z (2 ^ e) else (1 # Z.to_pos (2 ^ (- e)))%Q.

(** The binade of [q <> 0]: the [k] with [2^k <= |q| < 2^(k+1)]. *)
Definition ilog2 (q : Q) : Z :=
  let k := (Z.log2 (Z.abs (Qnum q)) - Z.log2 (Zpos (Qden q)))%Z in
  if Qle_bool (pow2 k) (Qabs q) then k else (k - 1)%Z.

(** Rounding to binary64. *)
Definition fl (q : Q) : Q :=
  if Qeq_bool q 0 then 0%Q
  else
    let e := Z.max (ilog2 q - 52) (-1074) in
    Qred (inject_Z (round_half_even (q / pow2 e)) * pow2 e)%Q.

(** [x - y] and [x * y] of two floats. *)
Definition fsub (x y : Q) : Q := fl (fl x - fl y)%Q.
Definition fmul (x y : Q) : Q := fl (fl x * fl y)%Q.

(** [statistics.mean] of floats: the exact mean of the data, converted to
    a float at the end. *)
Definition fmean (data : list Q) : result Q :=
  m <- mean (map fl data) ;; Ok (fl m).

(** [round(x, ndigits)] of a float: the decimal nearest to the float, then
    the float nearest to that decimal. *)
Definition fround (x : Q) (ndigits : nat) : Q := fl (round (fl x) ndigits).

(** [==] of two tuples of integers. *)
Fixpoint tuple_eq (xs ys : list Z) : bool :=
  match xs, ys with
  | [], [] => true
  | x :: xs', y :: ys' => Z.eqb x y && tuple_eq xs' ys'
  | _, _ => false
  end.

(** ** elements.py: the element classes and their [__eq__] *)

Module Capacitor.
Record t : Type := mk
  { _name : string; _states : list Z; _hassteps : bool }.
Definition get_name (e : t) : string := _name e.
Definition eq (self other : t) : result bool :=
  Ok (String.eqb (_name self) (_name other)
      && tuple_eq (_states self) (_states other)).
End Capacitor.

Module SwitchCodes.
Inductive State : Type := None_ | Open | Closed.
Definition State_eqb (a b : State) : bool :=
  match a, b with
  | None_, None_ | Open, Open | Closed, Closed => true
  | _, _ => false
  end.
End SwitchCodes.

Module Switch.
Record t : Type := mk
  { _name : string; _from_line : bool; _state : SwitchCodes.State }.
Definition get_name (e : t) : string := _name e.
Definition eq (self other : t) : result bool :=
  Ok (String.eqb (_name self) (_name other)
      && SwitchCodes.State_eqb (_state self) (_state other)).
End Switch.

Module Transformer.
Record t : Type := mk
  { _name : string; _min_tap : Q; _max_tap : Q; _num_taps : Z; _tap : Q }.
Definition get_name (e : t) : string := _name e.
Definition eq (self other : t) : result bool :=
  Ok (String.eqb (_name self) (_name other)
      && float_eq (_tap self) (_tap other)).
End Transformer.

Module Load.
Record t : Type := mk
  { _name : string; _kw : Q; _original_kw : Q; _kvar : Q; _pf : Q }.
Definition get_name (e : t) : string := _name e.
Definition eq (self other : t) : result bool :=
  Ok (String.eqb (_name self) (_name other)
      && float_eq (_kw self) (_kw other)).
End Load.

Module Generator.
Record t : Type := mk
  { _name : string; _kw : Q; _kvar : Q; _pf : Q }.
Definition get_name (e : t) : string := _name e.
Definition eq (self other : t) : result bool :=
  Ok (String.eqb (_name self) (_name other)
      && float_eq (_kw self) (_kw other)
      && float_eq (_kvar self) (_kvar other)
      && float_eq (_pf self) (_pf other)).
End Generator.

Module VSource.
Record t : Type := mk { _name : string; _vpu : Q }.
Definition get_name (e : t) : string := _name e.
Definition eq (self other : t) : result bool :=
  Ok (String.eqb (_name self) (_name other)
      && float_eq (_vpu self) (_vpu other)).
End VSource.

Module ISource.
Record t : Type := mk { _name : string; _amps : Q }.
Definition get_name (e : t) : string := _name e.
Definition eq (self other : t) : result bool :=
  Ok (String.eqb (_name self) (_name other)
      && float_eq (_amps self) (_amps other)).
End ISource.

Module Bus.
Record t : Type := mk { _name : string; _vpu : list Q }.
Definition get_name (e : t) : string := _name e.
(** [self._name == other._name and
     round(mean(self._vpu), 3) == round(mean(other._vpu), 3)]:
    the means are only taken when the names agree. *)
Definition eq (self other : t) : result bool :=
  if String.eqb (_name self) (_name other) then
    a <- mean (_vpu self) ;;
    b <- mean (_vpu other) ;;
    Ok (float_eq (round a 3) (round b 3))
  else Ok false.
End Bus.

(** ** state.py *)

Module State.

(** An attribute is [None], or the tuple (or list) of the elements. *)
Record t : Type := mk
  { _capacitors : option (list Capacitor.t);
    _switches : option (list Switch.t);
    _transformers : option (list Transformer.t);
    _loads : option (list Load.t);
    _generators : option (list Generator.t);
    _isources : option (list ISource.t);
    _vsources : option (list VSource.t);
    _buses : option (list Bus.t) }.

Section Category.

Variable T : Type.
Variable get_name : T -> string.
Variable elem_eq : T -> T -> result bool.

(** Truth value of the attribute: [None] and the empty sequence are
    false. *)
Definition truthy (c : option (list T)) : bool :=
  match c with
  | Some (_ :: _) => true
  | _ => false
  end.

(** [next(filter(lambda other_e: other_e.get_name() == e.get_name(),
    others), None)]; [filter] refuses [None]. *)
Definition find_other (e : T) (others : option (list T))
  : result (option T) :=
  match others with
  | None => Raise TypeError
  | Some l =>
      Ok (find (fun other_e => String.eqb (get_name other_e) (get_name e)) l)
  end.

(** The [for] loop of one category: [Ok true] when it runs to its end,
    [Ok false] at [return False].  [e == None] reads an attribute of
    [None]. *)
Fixpoint each_equal (selfs : list T) (others : option (list T))
  : result bool :=
  match selfs with
  | [] => Ok true
  | e :: rest =>
      other_e <- find_other e others ;;
      match other_e with
      | None => Raise AttributeError
      | Some o =>
          same <- elem_eq e o ;;
          if same then each_equal rest others else Ok false
      end
  end.

(** [if self._xs: for ... elif other._xs: return False] *)
Definition category_equal (self_c other_c : option (list T))
  : result bool :=
  match self_c with
  | Some (e :: rest) => each_equal (e :: rest) other_c
  | _ => if truthy other_c then Ok false else Ok true
  end.

End Category.

(** Falling through to the next category, or [return False]. *)
Definition and_then (r : result bool) (k : result bool) : result bool :=
  go_on <- r ;; if go_on then k else Ok false.

(** [State.__eq__] *)
Definition eq (self other : t) : result bool :=
  and_then (category_equal Capacitor.get_name Capacitor.eq
              (_capacitors self) (_capacitors other))
 (and_then (category_equal Switch.get_name Switch.eq
              (_switches self) (_switches other))
 (and_then (category_equal Transformer.get_name Transformer.eq
              (_transformers self) (_transformers other))
 (and_then (category_equal Load.get_name Load.eq
              (_loads self) (_loads other))
 (and_then (category_equal Generator.get_name Generator.eq
              (_generators self) (_generators other))
 (and_then (category_equal ISource.get_name ISource.eq
              (_isources self) (_isources other))
 (and_then (category_equal VSource.get_name VSource.eq
              (_vsources self) (_vsources other))
           (category_equal Bus.get_name Bus.eq
              (_buses self) (_buses other)))))))).

End State.

(** ** global_configuration.py *)

Module Configuration.

Record t : Type := mk
  { upper_voltage_limit : Q;
    lower_voltage_limit : Q;
    target_voltage : Q;
    out_of_limits_penalty : Q;
    toward_target_reward : Q;
    away_target_penalty_over : Q;
    stand_still_reward_out_of_target : Q;
    meaningless_action_penalty : Q;
    action_undone_penalty : Q;
    discount_factor : Q }.

(** [Configuration()] *)
Definition init : t :=
  {| upper_voltage_limit := 105 # 100;
     lower_voltage_limit := 92 # 100;
     target_voltage := 1;
     out_of_limits_penalty := - (1);
     toward_target_reward := 5 # 10;
     away_target_penalty_over := - (95 # 100);
     stand_still_reward_out_of_target := 1 # 10;
     meaningless_action_penalty := - (8 # 10);
     action_undone_penalty := - (1);
     discount_factor := 9 # 10 |}.

End Configuration.

(** ** environment.py: the reward *)

Module Environment.

Import Configuration.

(** The members of [CapacitorCodes.Action] and [TransformerCodes.Action];
    members of different enumerations are never equal. *)
Inductive ActionCode : Type :=
| StepUp | StepDown      (* CapacitorCodes.Action *)
| TapUp | TapDown.       (* TransformerCodes.Action *)

Definition ActionCode_eqb (a b : ActionCode) : bool :=
  match a, b with
  | StepUp, StepUp | StepDown, StepDown
  | TapUp, TapUp | TapDown, TapDown => true
  | _, _ => false
  end.

(** An action of the pool: [(method name, element name, code)];
    the no-operation is [None]. *)
Definition Action : Type := (string * string * ActionCode)%type.

Definition switch_capacitor__name__ : string := "switch_capacitor".
Definition change_tap__name__ : string := "change_tap".

(** [Environment._check_action_undone] *)
Definition _check_action_undone (last_action action : option Action) : bool :=
  match action, last_action with
  | Some (a0, a1, a2), Some (l0, l1, l2) =>
      if negb (String.eqb l0 a0) then false
      else if negb (String.eqb l1 a1) then false
      else if String.eqb a0 switch_capacitor__name__ then
        (ActionCode_eqb a2 StepUp && ActionCode_eqb l2 StepDown)
        || (ActionCode_eqb a2 StepDown && ActionCode_eqb l2 StepUp)
      else if String.eqb a0 change_tap__name__ then
        (ActionCode_eqb a2 TapUp && ActionCode_eqb l2 TapDown)
        || (ActionCode_eqb a2 TapDown && ActionCode_eqb l2 TapUp)
      else false
  | _, _ => false
  end.

(** One entry of [get_voltages()]: [{'bus': ..., 'voltages': ...}]. *)
Record Reading : Type := mkReading { bus : string; voltages : list Q }.

(** A row of the voltage-target table, indexed by [(bus, minute)]. *)
Record TargetRow : Type := mkRow
  { row_bus : string; row_minute : Z; row_target : Q }.

(** What [calculate_reward] reads of the environment. *)
Record Env : Type := mkEnv
  { _config : Configuration.t;
    _targets : option (list TargetRow);
    _current_step : Z }.

(** [self._targets.query(...)['target']], then [float(target)] unless the
    selection is empty; [float] of several rows is a [TypeError]. *)
Definition resolve_target (self : Env) (bus_name : string) : result Q :=
  match _targets self with
  | None => Ok (target_voltage (_config self))
  | Some rows =>
      match filter (fun r => String.eqb (row_bus r) bus_name
                             && Z.eqb (row_minute r) (_current_step self)) rows with
      | [] => Ok (target_voltage (_config self))
      | [r] => Ok (row_target r)
      | _ :: _ :: _ => Raise TypeError
      end
  end.

Definition Qltb (x y : Q) : bool := negb (Qle_bool y x).

(** [round(mean(reading['voltages']), 3)] *)
Definition rounded_mean (reading : Reading) : result Q :=
  m <- fmean (voltages reading) ;; Ok (fround m 3).

(** [abs(v_target - v)] *)
Definition distance (v_target v : Q) : Q := Qabs (fsub v_target v).

(** [(lower_limit * v_target > v_after) or (v_after > upper_limit * v_target)] *)
Definition out_of_limits (cfg : Configuration.t) (v_target v_after : Q) : bool :=
  Qltb (fl v_after) (fmul (lower_voltage_limit cfg) v_target)
  || Qltb (fmul (upper_voltage_limit cfg) v_target) (fl v_after).

(** The body of the loop of [calculate_reward]: the reward after one pair
    of readings, from the reward before it. *)
Definition reward_step (self : Env) (action last_action : option Action)
           (previous_voltage current_voltage : Reading) (reward : Q)
  : result Q :=
  let cfg := _config self in
  v_target <- resolve_target self (bus current_voltage) ;;
  v_before <- rounded_mean previous_voltage ;;
  v_after <- rounded_mean current_voltage ;;
  let reward :=
    if Qltb (distance v_target v_before) (distance v_target v_after) then
      let reward := (reward + away_target_penalty_over cfg)%Q in
      if out_of_limits cfg v_target v_after
      then (reward + out_of_limits_penalty cfg)%Q
      else reward
    else if Qltb (distance v_target v_after) (distance v_target v_before) then
      (reward + toward_target_reward cfg)%Q
    else
      let reward :=
        if out_of_limits cfg v_target v_after
        then (reward + out_of_limits_penalty cfg)%Q
        else reward in
      match action with
      | None => (reward + stand_still_reward_out_of_target cfg)%Q
      | Some _ => (reward + meaningless_action_penalty cfg)%Q
      end in
  Ok (if _check_action_undone last_action action
      then (reward + action_undone_penalty cfg)%Q
      else reward).

Fixpoint reward_loop (self : Env) (action last_action : option Action)
         (pairs : list (Reading * Reading)) (reward : Q) : result Q :=
  match pairs with
  | [] => Ok reward
  | (previous_voltage, current_voltage) :: rest =>
      reward' <- reward_step self action last_action
                   previous_voltage current_voltage reward ;;
      reward_loop self action last_action rest reward'
  end.

(** [Environment.calculate_reward] *)
Definition calculate_reward (self : Env)
           (previous_state current_state : list Reading)
           (action last_action : option Action) : result Q :=
  reward_loop self action last_action
              (combine previous_state current_state) 0%Q.

End Environment.

(** ** neural_network.py *)

Module Network.

Local Open Scope R_scope.

(** A rank-2 tensor, as the list of its rows. *)
Definition tensor : Type := list (list R).

Definition dot (u v : list R) : R :=
  fold_right Rplus 0 (map (fun p => fst p * snd p) (combine u v)).

Definition ncols (w : tensor) : nat := length (hd [] w).

Definition column (j : nat) (w : tensor) : list R :=
  map (fun row => nth j row 0) w.

(** [tf.matmul(x, w)] *)
Definition matmul (x w : tensor) : tensor :=
  map (fun row => map (fun j => dot row (column j w)) (seq 0 (ncols w))) x.

(** [z + bias], the single row of [bias] added to every row of [z]. *)
Definition add_bias (z bias : tensor) : tensor :=
  map (fun row => map (fun p => fst p + snd p) (combine row (hd [] bias))) z.

(** [tf.nn.relu] *)
Definition relu (x : R) : R := Rmax 0 x.

(** [tf.nn.swish]: [x * sigmoid(x)] *)
Definition swish (x : R) : R := x * / (1 + exp (- x)).

(** [Network._dense_layer] *)
Definition _dense_layer (x weights bias : tensor) (activation : R -> R)
  : tensor :=
  let z := add_bias (matmul x weights) bias in
  map (map activation) z.

Definition sum_all (a : tensor) : R :=
  fold_right Rplus 0 (map (fold_right Rplus 0) a).

Definition count_all (a : tensor) : nat :=
  fold_right Nat.add 0%nat (map (@length R) a).

(** [tf.math.reduce_mean(a)] with no axis: the mean of all the entries. *)
Definition reduce_mean (a : tensor) : R := sum_all a / INR (count_all a).

(** [MinMaxScaler], by the extremes seen so far of every feature. *)
Record MinMaxScaler : Type := mkScaler
  { data_min_ : list R; data_max_ : list R }.

(** [scale_]: the inverse of the range, a zero range counting as one. *)
Definition scale_of (lo hi : R) : R :=
  if Req_dec_T (hi - lo) 0 then 1 else / (hi - lo).

Definition scale_ (s : MinMaxScaler) : list R :=
  map (fun p => scale_of (fst p) (snd p)) (combine (data_min_ s) (data_max_ s)).

(** [min_ = 0 - data_min_ * scale_] *)
Definition min_ (s : MinMaxScaler) : list R :=
  map (fun p => 0 - fst p * snd p) (combine (data_min_ s) (scale_ s)).

(** [MinMaxScaler.transform]: [X * scale_ + min_], row by row. *)
Definition transform_row (s : MinMaxScaler) (row : list R) : list R :=
  map (fun p => fst (fst p) * snd (fst p) + snd p)
      (combine (combine row (scale_ s)) (min_ s)).

Definition transform (s : MinMaxScaler) (X : tensor) : tensor :=
  map (transform_row s) X.

(** [MinMaxScaler.partial_fit] of an already fitted scaler: the extremes
    are widened by every row of the batch. *)
Definition widen (f : R -> R -> R) (acc row : list R) : list R :=
  map (fun p => f (fst p) (snd p)) (combine acc row).

Definition partial_fit (s : MinMaxScaler) (X : tensor) : MinMaxScaler :=
  mkScaler (fold_left (widen Rmin) X (data_min_ s))
           (fold_left (widen Rmax) X (data_max_ s)).

(** The values a network computes with: the six weight tensors, the six
    bias tensors and the scaler. *)
Record Network : Type := mkNetwork
  { _weights : list tensor; _bias : list tensor; _scaler : MinMaxScaler }.

Definition item (l : list tensor) (i : nat) : tensor := nth i l [].

(** [value_layer_output + (advantage_layer_output - mean)]: a column of
    values added to every column of the centred advantages. *)
Definition combine_streams (value advantage : tensor) (m : R) : tensor :=
  map (fun p => map (fun a => hd 0 (fst p) + (a - m)) (snd p))
      (combine value advantage).

(** [Network.model] *)
Definition model (self : Network) (inputs : tensor) : tensor :=
  let inputs := transform (_scaler self) inputs in
  let hidden_layer_1 :=
    _dense_layer inputs (item (_weights self) 0) (item (_bias self) 0) relu in
  let hidden_layer_2 :=
    _dense_layer hidden_layer_1 (item (_weights self) 1) (item (_bias self) 1) relu in
  let value_layer :=
    _dense_layer hidden_layer_2 (item (_weights self) 2) (item (_bias self) 2) relu in
  let value_layer_output :=
    _dense_layer value_layer (item (_weights self) 3) (item (_bias self) 3) swish in
  let advantage_layer :=
    _dense_layer hidden_layer_2 (item (_weights self) 4) (item (_bias self) 4) relu in
  let advantage_layer_output :=
    _dense_layer advantage_layer (item (_weights self) 5) (item (_bias self) 5) swish in
  combine_streams value_layer_output advantage_layer_output
                  (reduce_mean advantage_layer_output).

(** The value stream and the advantage stream on their own, as [model]
    computes them. *)
Definition hidden (self : Network) (inputs : tensor) : tensor :=
  _dense_layer
    (_dense_layer (transform (_scaler self) inputs)
                  (item (_weights self) 0) (item (_bias self) 0) relu)
    (item (_weights self) 1) (item (_bias self) 1) relu.

Definition value_stream (self : Network) (inputs : tensor) : tensor :=
  _dense_layer
    (_dense_layer (hidden self inputs)
                  (item (_weights self) 2) (item (_bias self) 2) relu)
    (item (_weights self) 3) (item (_bias self) 3) swish.

Definition advantage_stream (self : Network) (inputs : tensor) : tensor :=
  _dense_layer
    (_dense_layer (hidden self inputs)
                  (item (_weights self) 4) (item (_bias self) 4) relu)
    (item (_weights self) 5) (item (_bias self) 5) swish.

(** Mean over the actions of one row. *)
Definition row_mean (row : list R) : R :=
  fold_right Rplus 0 row / INR (length row).

(** [Q - V] of one row: the value of the row taken from every entry. *)
Definition minus_value (q_row v_row : list R) : list R :=
  map (fun q => q - hd 0 v_row) q_row.

End Network.

(** ** neural_network.py: the variables as objects

    A [tf.Variable] is a mutable object; the attributes [_weights], [_bias]
    and [_variables] of a network hold references to such objects, and
    [initialize_weights_bias] makes [_variables] the references of
    [_weights] followed by those of [_bias]. *)

Module NetworkObject.

Import Network.

(** The address of a variable in the store. *)
Definition ref : Type := nat.

(** The live [tf.Variable] objects, by address. *)
Definition store : Type := list tensor.

Record t : Type := mk
  { _weights : list ref;
    _bias : list ref;
    _variables : list ref;
    _scaler : MinMaxScaler }.

(** The current value of a variable. *)
Definition value (h : store) (r : ref) : tensor := nth r h [].

(** [tf.Variable(v)]: a new object holding [v]. *)
Definition Variable_ (h : store) (v : tensor) : ref * store :=
  (length h, h ++ [v]).

(** [Variable.assign] *)
Fixpoint assign (h : store) (r : ref) (v : tensor) : store :=
  match h, r with
  | [], _ => []
  | _ :: rest, O => v :: rest
  | x :: rest, S r' => x :: assign rest r' v
  end.

(** [Network.get_variables]: [[tf.Variable(t) for t in self._variables]] *)
Fixpoint copy_each (h : store) (refs : list ref) : list ref * store :=
  match refs with
  | [] => ([], h)
  | r :: rest =>
      let (r', h1) := Variable_ h (value h r) in
      let (rest', h2) := copy_each h1 rest in
      (r' :: rest', h2)
  end.

Definition get_variables (self : t) (h : store) : list ref * store :=
  copy_each h (_variables self).

(** [Network.update_variables]: [self._variables = variables] *)
Definition update_variables (self : t) (variables : list ref) : t :=
  mk (_weights self) (_bias self) variables (_scaler self).

(** The tensors [model] reads: through [self._weights] and [self._bias]. *)
Definition values (self : t) (h : store) : Network :=
  mkNetwork (map (value h) (_weights self)) (map (value h) (_bias self))
            (_scaler self).

(** [Network.model], on the store. *)
Definition model (self : t) (h : store) (inputs : tensor) : tensor :=
  Network.model (values self h) inputs.

(** The writes of [update_weights]:
    [apply_gradients(zip(gradients, self._variables))] assigns a new value
    to every variable of [self._variables]. *)
Fixpoint assign_all (h : store) (updates : list (ref * tensor)) : store :=
  match updates with
  | [] => h
  | (r, v) :: rest => assign_all (assign h r v) rest
  end.

Definition apply_gradients (self : t) (new_values : list tensor) (h : store)
  : store :=
  assign_all h (combine (_variables self) new_values).

(** [copy.deepcopy] of a list of variables: every object is copied once,
    the memo giving the copy of an object met before. *)
Definition memo_get (memo : list (ref * ref)) (r : ref) : option ref :=
  option_map snd (find (fun p => Nat.eqb (fst p) r) memo).

Fixpoint deepcopy_refs (memo : list (ref * ref)) (h : store) (refs : list ref)
  : list ref * list (ref * ref) * store :=
  match refs with
  | [] => ([], memo, h)
  | r :: rest =>
      match memo_get memo r with
      | Some r' =>
          let '(rest', memo', h') := deepcopy_refs memo h rest in
          (r' :: rest', memo', h')
      | None =>
          let (r', h1) := Variable_ h (value h r) in
          let '(rest', memo', h') := deepcopy_refs ((r, r') :: memo) h1 rest in
          (r' :: rest', memo', h')
      end
  end.

(** [copy.deepcopy(network)]: the attributes in the order they were set. *)
Definition deepcopy (self : t) (h : store) : t * store :=
  let '(w, memo1, h1) := deepcopy_refs [] h (_weights self) in
  let '(b, memo2, h2) := deepcopy_refs memo1 h1 (_bias self) in
  let '(v, _, h3) := deepcopy_refs memo2 h2 (_variables self) in
  (mk w b v (_scaler self), h3).

(** [Environment.sync_networks]:
    [self._target_network = deepcopy(self._online_network)] *)
Definition sync_networks (online : t) (h : store) : t * store :=
  deepcopy online h.

(** A network as [initialize_weights_bias] leaves it. *)
Definition initialized (self : t) : Prop :=
  _variables self = _weights self ++ _bias self.

(** Every reference of the network is a live variable. *)
Definition allocated (self : t) (h : store) : Prop :=
  Forall (fun r => r < length h)%nat
         (_weights self ++ _bias self ++ _variables self).

End NetworkObject.

(** ** environment.py: the training update *)

Module Training.

Import Network.
Local Open Scope R_scope.

(** An item of the agent's memory. *)
Record Sample : Type := mkSample
  { state : list R; action : nat; reward : R; next_state : list R }.

(** A numpy array of rank 0, 1 or 2. *)
Inductive ndarray (A : Type) : Type :=
| Arr0 (x : A)
| Arr1 (v : list A)
| Arr2 (m : list (list A)).

Arguments Arr0 {A} x.
Arguments Arr1 {A} v.
Arguments Arr2 {A} m.

Definition is_single {A : Type} (l : list A) : bool :=
  match l with
  | [_] => true
  | _ => false
  end.

(** [np.squeeze] of a rank-2 tensor: the axes of length one are dropped. *)
Definition np_squeeze (a : tensor) : ndarray R :=
  match a with
  | [[x]] => Arr0 x
  | [row] => Arr1 row
  | _ => if forallb is_single a then Arr1 (map (hd 0) a) else Arr2 a
  end.

(** Index of the first greatest entry. *)
Fixpoint argmax_from (best : R) (best_i i : nat) (l : list R) : nat :=
  match l with
  | [] => best_i
  | x :: rest =>
      if Rlt_dec best x then argmax_from x i (S i) rest
      else argmax_from best best_i (S i) rest
  end.

Definition argmax (l : list R) : nat :=
  match l with
  | [] => 0%nat
  | x :: rest => argmax_from x 0%nat 1%nat rest
  end.

(** [np.argmax(a, axis=-1)] *)
Definition np_argmax (a : ndarray R) : ndarray nat :=
  match a with
  | Arr0 _ => Arr0 0%nat
  | Arr1 v => Arr0 (argmax v)
  | Arr2 m => Arr1 (map argmax m)
  end.

Definition getitem (row : list R) (j : nat) : result R :=
  match nth_error row j with
  | Some x => Ok x
  | None => Raise IndexError
  end.

Fixpoint take_each (rows : tensor) (cols : list nat) : result (list R) :=
  match rows, cols with
  | [], [] => Ok []
  | row :: rows', j :: cols' =>
      x <- getitem row j ;;
      xs <- take_each rows' cols' ;;
      Ok (x :: xs)
  | _, _ => Raise IndexError
  end.

Fixpoint take_column (rows : tensor) (j : nat) : result (list R) :=
  match rows with
  | [] => Ok []
  | row :: rows' =>
      x <- getitem row j ;;
      xs <- take_column rows' j ;;
      Ok (x :: xs)
  end.

(** [values[np.arange(len(values)), best_actions]]: [len] refuses a
    rank-0 array, and two indices are too many for a rank-1 array. *)
Definition index_rows (values : ndarray R) (best_actions : ndarray nat)
  : result (list R) :=
  match values with
  | Arr0 _ => Raise TypeError
  | Arr1 _ => Raise IndexError
  | Arr2 m =>
      match best_actions with
      | Arr0 j => take_column m j
      | Arr1 js => take_each m js
      | Arr2 _ => Raise IndexError
      end
  end.

(** A row of [np.eye(n)] *)
Definition eye_row (n i : nat) : list R :=
  map (fun j => if Nat.eqb i j then 1 else 0) (seq 0 n).

(** [np.eye(n)[actions]] *)
Fixpoint one_hot (n : nat) (actions : list nat) : result tensor :=
  match actions with
  | [] => Ok []
  | a :: rest =>
      if (a <? n)%nat then
        rows <- one_hot n rest ;;
        Ok (eye_row n a :: rows)
      else Raise IndexError
  end.

(** [Environment.scaler_partial_fit] *)
Definition scaler_partial_fit (online target : Network) (inputs : tensor)
  : Network * Network :=
  (mkNetwork (_weights online) (_bias online)
             (partial_fit (_scaler online) inputs),
   mkNetwork (_weights target) (_bias target)
             (partial_fit (_scaler target) inputs)).

(** What [_train_network] hands to [update_weights], and the two networks
    with their scalers fitted to the batch. *)
Record Update : Type := mkUpdate
  { online_network : Network;
    target_network : Network;
    inputs : tensor;
    targets : list R;
    encoded_actions : tensor }.

(** [Environment._train_network], up to the call of [update_weights];
    [n_actions] is [len(self._possible_actions)]. *)
Definition _train_network (discount_factor : R) (n_actions : nat)
           (online target : Network) (train_batch : list Sample)
  : result Update :=
  let inputs := map state train_batch in
  let (online, target) := scaler_partial_fit online target inputs in
  let actions := map action train_batch in
  let rewards := map reward train_batch in
  let next_inputs := map next_state train_batch in
  let (online, target) := scaler_partial_fit online target next_inputs in
  encoded_actions <- one_hot n_actions actions ;;
  let best_actions := np_argmax (np_squeeze (model online next_inputs)) in
  let best_actions_values := np_squeeze (model target next_inputs) in
  next_q_values <- index_rows best_actions_values best_actions ;;
  let targets :=
    map (fun p => fst p + discount_factor * snd p)
        (combine rewards next_q_values) in
  Ok (mkUpdate online target inputs targets encoded_actions).

(** The double-DQN target of one transition, from forward passes on the
    transition's next state alone. *)
Definition double_dqn_target (discount_factor : R) (online target : Network)
           (s : Sample) : R :=
  let q_online := hd [] (model online [next_state s]) in
  let q_target := hd [] (model target [next_state s]) in
  reward s + discount_factor * nth (argmax q_online) q_target 0.

(** The same target with the forward passes made on the whole batch of
    next states, [i] being the transition's place in the batch. *)
Definition batch_dqn_target (discount_factor : R) (online target : Network)
           (train_batch : list Sample) (i : nat) : R :=
  let next_inputs := map next_state train_batch in
  let q_online := nth i (model online next_inputs) [] in
  let q_target := nth i (model target next_inputs) [] in
  nth i (map reward train_batch) 0
  + discount_factor * nth (argmax q_online) q_target 0.

End Training.

(** ** The draws of the generator

    [numpy.random.permutation(n)] returns one of the orderings of
    [0 .. n-1], each as likely as any other; [shuffles n] lists them all. *)

Module Shuffle.

(** Every way of taking one entry out of a list. *)
Fixpoint selects (l : list nat) : list (nat * list nat) :=
  match l with
  | [] => []
  | x :: rest =>
      (x, rest) :: map (fun p => (fst p, x :: snd p)) (selects rest)
  end.

(** The orderings of a list of [n] entries. *)
Fixpoint orderings (n : nat) (l : list nat) : list (list nat) :=
  match n with
  | O => [[]]
  | S n' =>
      flat_map (fun p => map (cons (fst p)) (orderings n' (snd p)))
               (selects l)
  end.

Definition shuffles (n : nat) : list (list nat) := orderings n (seq 0 n).

Definition same_indexes (a b : list nat) : bool :=
  if list_eq_dec Nat.eq_dec a b then true else false.

(** Whether [numpy.random.choice] answered [idx]. *)
Definition chooses (answer : result (list nat)) (idx : list nat) : bool :=
  match answer with
  | Ok chosen => same_indexes chosen idx
  | Raise _ => false
  end.

(** The draws that make [numpy.random.choice] answer [idx] for a sample of
    [size] out of [n]. *)
Definition draws_giving (n size : nat) (idx : list nat) : list (list nat) :=
  filter (fun p => chooses (Memory.random_choice p n size) idx) (shuffles n).

End Shuffle.

(** ** Concrete networks and batches *)

Module Examples.

Import Network.
Local Open Scope R_scope.

Definition zeros (n : nat) : list R := repeat 0 n.

(** All entries zero. *)
Definition null (m n : nat) : tensor := repeat (zeros n) m.

(** A one in the first row and column, zero elsewhere. *)
Definition corner (m n : nat) : tensor :=
  (1 :: zeros (n - 1)) :: repeat (zeros n) (m - 1).

(** Seven features (step, actions taken, weekday, one capacitor, total
    active and reactive load, one voltage source) and three actions (the
    capacitor up, down, and the no-operation). *)
Definition scaler7 : MinMaxScaler :=
  mkScaler [1; 0; 1; 0; 100; 50; 1] [2; 1; 2; 1; 200; 100; 1].

Definition no_bias : list tensor :=
  [[zeros 16]; [zeros 32]; [zeros 16]; [zeros 1]; [zeros 16]; [zeros 3]].

(** The first feature is carried to the first advantage; the value stream
    is null. *)
Definition carrier : Network :=
  mkNetwork [corner 7 16; corner 16 32; null 32 16; null 16 1;
             corner 32 16; corner 16 3]
            no_bias scaler7.

(** Every weight zero. *)
Definition silent : Network :=
  mkNetwork [null 7 16; null 16 32; null 32 16; null 16 1;
             null 32 16; null 16 3]
            no_bias scaler7.

Definition row_a : list R := [1; 0; 1; 0; 100; 50; 1].
Definition row_b : list R := [2; 0; 1; 0; 100; 50; 1].

Definition batch_ab : tensor := [row_a; row_b].

Definition sample_a : Training.Sample := Training.mkSample row_a 2 0 row_a.
Definition sample_b : Training.Sample := Training.mkSample row_a 0 0 row_b.

(** Two networks in one store: the variables of [carrier] at addresses
    0 to 11, those of [silent] at 12 to 23. *)
Definition store24 : NetworkObject.store :=
  _weights carrier ++ _bias carrier ++ _weights silent ++ _bias silent.

Definition online_object : NetworkObject.t :=
  NetworkObject.mk (seq 0 6) (seq 6 6) (seq 0 12) scaler7.

Definition target_object : NetworkObject.t :=
  NetworkObject.mk (seq 12 6) (seq 18 6) (seq 12 12) scaler7.

End Examples.

(** ** Vocabulary of the claims on snapshots *)

Module Snapshot.

Import State.

(** The names of a category are pairwise different. *)
Definition unique_names {T : Type} (get_name : T -> string)
           (c : option (list T)) : Prop :=
match c with
| Some l => NoDup (map get_name l)
| None => True
end.

Definition well_named (s : State.t) : Prop :=
unique_names Capacitor.get_name (_capacitors s)
/\ unique_names Switch.get_name (_switches s)
/\ unique_names Transformer.get_name (_transformers s)
/\ unique_names Load.get_name (_loads s)
/\ unique_names Generator.get_name (_generators s)
/\ unique_names ISource.get_name (_isources s)
/\ unique_names VSource.get_name (_vsources s)
/\ unique_names Bus.get_name (_buses s).

(** Every bus has at least one voltage reading. *)
Definition all_read (s : State.t) : Prop :=
match _buses s with
| Some l => Forall (fun b => Bus._vpu b <> []) l
| None => True
end.

(** The seven categories other than the buses are the same. *)
Definition same_but_buses (a b : State.t) : Prop :=
_capacitors a = _capacitors b
/\ _switches a = _switches b
/\ _transformers a = _transformers b
/\ _loads a = _loads b
/\ _generators a = _generators b
/\ _isources a = _isources b
/\ _vsources a = _vsources b.

(** Bus by bus, the same name and the same mean voltage once rounded to
    three decimals. *)
Definition bus_agrees (x y : Bus.t) : Prop :=
Bus._name x = Bus._name y
/\ exists mx my,
     mean (Bus._vpu x) = Ok mx /\ mean (Bus._vpu y) = Ok my
     /\ float_eq (round mx 3) (round my 3) = true.

Definition buses_agree (a b : State.t) : Prop :=
match _buses a, _buses b with
| Some la, Some lb => Forall2 bus_agrees la lb
| None, None => True
| _, _ => False
end.

(** Bus by bus, the same name and a voltage reading on both sides. *)
Definition bus_paired (x y : Bus.t) : Prop :=
Bus._name x = Bus._name y /\ Bus._vpu x <> [] /\ Bus._vpu y <> [].

(** The same name, and mean voltages that differ once rounded to three
    decimals. *)
Definition bus_differs (x y : Bus.t) : Prop :=
Bus._name x = Bus._name y
/\ exists mx my,
     mean (Bus._vpu x) = Ok mx /\ mean (Bus._vpu y) = Ok my
     /\ float_eq (round mx 3) (round my 3) = false.

(** Every bus has a reading in both snapshots, and the rounded mean
    voltage of one bus at least is not the same. *)
Definition buses_differ (a b : State.t) : Prop :=
match _buses a, _buses b with
| Some la, Some lb =>
    Forall2 bus_paired la lb
    /\ Exists (fun xy => bus_differs (fst xy) (snd xy)) (combine la lb)
| _, _ => False
end.

(** A difference in a scalar that the [__eq__] of the class compares. *)
Definition Capacitor_differs (e e' : Capacitor.t) : Prop :=
Capacitor._states e <> Capacitor._states e'.
Definition Switch_differs (e e' : Switch.t) : Prop :=
Switch._state e <> Switch._state e'.
Definition Transformer_differs (e e' : Transformer.t) : Prop :=
~ (Transformer._tap e == Transformer._tap e')%Q.
Definition Load_differs (e e' : Load.t) : Prop :=
~ (Load._kw e == Load._kw e')%Q.
Definition Generator_differs (e e' : Generator.t) : Prop :=
~ (Generator._kw e == Generator._kw e')%Q
\/ ~ (Generator._kvar e == Generator._kvar e')%Q
\/ ~ (Generator._pf e == Generator._pf e')%Q.
Definition VSource_differs (e e' : VSource.t) : Prop :=
~ (VSource._vpu e == VSource._vpu e')%Q.
Definition ISource_differs (e e' : ISource.t) : Prop :=
~ (ISource._amps e == ISource._amps e')%Q.

(** The same name and the same compared scalars; the scalars that the
    [__eq__] of the class does not read are free: [_hassteps] of a
    capacitor, [_from_line] of a switch, the tap limits and the number of
    taps of a transformer, [_original_kw], [_kvar] and [_pf] of a load. *)
Definition Capacitor_alike (e e' : Capacitor.t) : Prop :=
Capacitor._name e = Capacitor._name e'
/\ Capacitor._states e = Capacitor._states e'.
Definition Switch_alike (e e' : Switch.t) : Prop :=
Switch._name e = Switch._name e' /\ Switch._state e = Switch._state e'.
Definition Transformer_alike (e e' : Transformer.t) : Prop :=
Transformer._name e = Transformer._name e'
/\ (Transformer._tap e == Transformer._tap e')%Q.
Definition Load_alike (e e' : Load.t) : Prop :=
Load._name e = Load._name e' /\ (Load._kw e == Load._kw e')%Q.

(** Two categories that differ in one element: it keeps its name and its
    place, and a scalar that the class compares is not the same. *)
Definition one_changed {T : Type} (get_name : T -> string)
           (differs : T -> T -> Prop)
           (ca cb : option (list T)) : Prop :=
exists pre e e' post,
  ca = Some (pre ++ e :: post)
  /\ cb = Some (pre ++ e' :: post)
  /\ get_name e = get_name e'
  /\ differs e e'
  /\ NoDup (map get_name (pre ++ e :: post)).

(** Two categories that differ in one element, in scalars that the class
    does not compare. *)
Definition one_retouched {T : Type} (alike : T -> T -> Prop)
           (ca cb : option (list T)) : Prop :=
exists pre e e' post,
  ca = Some (pre ++ e :: post)
  /\ cb = Some (pre ++ e' :: post)
  /\ alike e e'.

Definition set_capacitors (s : State.t) c : State.t :=
State.mk c (_switches s) (_transformers s) (_loads s) (_generators s)
         (_isources s) (_vsources s) (_buses s).
Definition set_switches (s : State.t) c : State.t :=
State.mk (_capacitors s) c (_transformers s) (_loads s) (_generators s)
         (_isources s) (_vsources s) (_buses s).
Definition set_transformers (s : State.t) c : State.t :=
State.mk (_capacitors s) (_switches s) c (_loads s) (_generators s)
         (_isources s) (_vsources s) (_buses s).
Definition set_loads (s : State.t) c : State.t :=
State.mk (_capacitors s) (_switches s) (_transformers s) c (_generators s)
         (_isources s) (_vsources s) (_buses s).
Definition set_generators (s : State.t) c : State.t :=
State.mk (_capacitors s) (_switches s) (_transformers s) (_loads s) c
         (_isources s) (_vsources s) (_buses s).
Definition set_isources (s : State.t) c : State.t :=
State.mk (_capacitors s) (_switches s) (_transformers s) (_loads s)
         (_generators s) c (_vsources s) (_buses s).
Definition set_vsources (s : State.t) c : State.t :=
State.mk (_capacitors s) (_switches s) (_transformers s) (_loads s)
         (_generators s) (_isources s) c (_buses s).

(** [b] is [a] but for one element of one category other than the buses,
    which differs from its version in [a] in a scalar that its class
    compares. *)
Inductive one_entity_changed (a : State.t) : State.t -> Prop :=
| changed_capacitor c :
    one_changed Capacitor.get_name Capacitor_differs (_capacitors a) c ->
    one_entity_changed a (set_capacitors a c)
| changed_switch c :
    one_changed Switch.get_name Switch_differs (_switches a) c ->
    one_entity_changed a (set_switches a c)
| changed_transformer c :
    one_changed Transformer.get_name Transformer_differs (_transformers a) c ->
    one_entity_changed a (set_transformers a c)
| changed_load c :
    one_changed Load.get_name Load_differs (_loads a) c ->
    one_entity_changed a (set_loads a c)
| changed_generator c :
    one_changed Generator.get_name Generator_differs (_generators a) c ->
    one_entity_changed a (set_generators a c)
| changed_isource c :
    one_changed ISource.get_name ISource_differs (_isources a) c ->
    one_entity_changed a (set_isources a c)
| changed_vsource c :
    one_changed VSource.get_name VSource_differs (_vsources a) c ->
    one_entity_changed a (set_vsources a c).

(** [b] is [a] but for one element of one category, which differs from its
    version in [a] only in scalars that its class does not compare. *)
Inductive one_entity_retouched (a : State.t) : State.t -> Prop :=
| retouched_capacitor c :
    one_retouched Capacitor_alike (_capacitors a) c ->
    one_entity_retouched a (set_capacitors a c)
| retouched_switch c :
    one_retouched Switch_alike (_switches a) c ->
    one_entity_retouched a (set_switches a c)
| retouched_transformer c :
    one_retouched Transformer_alike (_transformers a) c ->
    one_entity_retouched a (set_transformers a c)
| retouched_load c :
    one_retouched Load_alike (_loads a) c ->
    one_entity_retouched a (set_loads a c).

(** Snapshots of a feeder with one capacitor bank, one load and one bus. *)
Definition feeder (kvar : Q) (vpu : list Q) : State.t :=
State.mk (Some [Capacitor.mk "C83" [1%Z; 0%Z] true])
         None None
         (Some [Load.mk "S48" 210 210 kvar (95 # 100)])
         None None
         (Some [VSource.mk "SOURCE" 1])
         (Some [Bus.mk "150" vpu]).

(** Snapshots of capacitor banks alone. *)
Definition banks (l : list Capacitor.t) : State.t :=
State.mk (Some l) None None None None None None None.

(** A snapshot with an element of every category. *)
Definition station : State.t :=
State.mk (Some [Capacitor.mk "C83" [1%Z; 0%Z] true])
         (Some [Switch.mk "SW1" true SwitchCodes.Closed])
         (Some [Transformer.mk "REG1A" (9 # 10) (11 # 10) 32 1])
         (Some [Load.mk "S47" 105 105 75 (9 # 10);
                Load.mk "S48" 210 210 100 (95 # 100)])
         (Some [Generator.mk "G1" 500 100 (98 # 100)])
         (Some [ISource.mk "I1" 10])
         (Some [VSource.mk "SOURCE" 1])
         (Some [Bus.mk "150" [1; 1; 1]%Q; Bus.mk "149" [99 # 100]%Q]).

End Snapshot.

(** ** state.py: the representation handed to the network *)

Module Features.

Import State.

(** The elements a [for] loop guarded by [if self._xs:] goes through. *)
Definition elements {T : Type} (c : option (list T)) : list T :=
match c with
| Some l => l
| None => []
end.

(** [sum(capacitor._states)] *)
Definition stages (c : Capacitor.t) : Q :=
inject_Z (fold_left Z.add (Capacitor._states c) 0%Z).

(** [total_kw] and [total_kvar], summed load by load from zero. *)
Definition total_kw (loads : list Load.t) : Q :=
fold_left (fun total load => (total + Load._kw load)%Q) loads 0%Q.

Definition total_kvar (loads : list Load.t) : Q :=
fold_left (fun total load => (total + Load._kvar load)%Q) loads 0%Q.

(** [State.state_space_repr] *)
Definition state_space_repr (self : State.t)
           (current_step actions_taken weekday : Z) : list Q :=
let representation :=
  [inject_Z current_step; inject_Z actions_taken; inject_Z weekday] in
let representation :=
  representation ++ map stages (elements (_capacitors self)) in
let representation :=
  representation ++ map Transformer._tap (elements (_transformers self)) in
let representation :=
  if truthy (_loads self)
  then representation ++ [total_kw (elements (_loads self));
                          total_kvar (elements (_loads self))]
  else representation in
let representation :=
  representation
  ++ flat_map (fun g => [Generator._kw g; Generator._kvar g])
              (elements (_generators self)) in
let representation :=
  representation ++ map VSource._vpu (elements (_vsources self)) in
representation ++ map ISource._amps (elements (_isources self)).

(** Entry by entry the same numbers. *)
Definition same_numbers (u v : list Q) : Prop := Forall2 Qeq u v.

End Features.

(** ** dss_engine.py and environment.py: the pool of actions *)

Module Catalog.

Import Environment.

(** The [for] loop over the members of an enumeration, in the order of
    their definition. *)
Definition CapacitorCodes_Action : list ActionCode := [StepUp; StepDown].
Definition TransformerCodes_Action : list ActionCode := [TapUp; TapDown].

(** The nested loops [for element in elements: for action in codes:
    actions.append((op, element.get_name(), action))]. *)
Definition listing {T : Type} (op : string) (get_name : T -> string)
           (codes : list ActionCode) (elements : list T) : list Action :=
flat_map (fun element => map (fun action => (op, get_name element, action)) codes)
         elements.

(** [OpenDssEngine.get_possible_actions]; the attributes are [None] for a
    circuit without such elements, and [for] refuses [None]. *)
Definition get_possible_actions
           (_capacitors : option (list Capacitor.t))
           (_transformers : option (list Transformer.t))
  : result (list Action) :=
match _capacitors with
| None => Raise TypeError
| Some capacitors =>
    let actions :=
      listing switch_capacitor__name__ Capacitor.get_name
              CapacitorCodes_Action capacitors in
    match _transformers with
    | None => Raise TypeError
    | Some transformers =>
        Ok (actions
            ++ listing change_tap__name__ Transformer.get_name
                       TransformerCodes_Action transformers)
    end
end.

(** [self._possible_actions = self._model.get_possible_actions() + [None]] *)
Definition _possible_actions
           (_capacitors : option (list Capacitor.t))
           (_transformers : option (list Transformer.t))
  : result (list (option Action)) :=
actions <- get_possible_actions _capacitors _transformers ;;
Ok (map Some actions ++ [None]).

(** [self._possible_actions_map[i]], of the dictionary built by
    [enumerate]. *)
Definition _possible_actions_map (pool : list (option Action)) (i : nat)
  : option (option Action) :=
nth_error pool i.

(** The action that takes back a given action of the pool. *)
Definition opposite (a : Action) : Action :=
match a with
| (op, name, StepUp) => (op, name, StepDown)
| (op, name, StepDown) => (op, name, StepUp)
| (op, name, TapUp) => (op, name, TapDown)
| (op, name, TapDown) => (op, name, TapUp)
end.

End Catalog.

(** ** environment.py: the schedule of a training run *)

Module Schedule.

Import Environment.

(** [max(a, b)]: the first of the two unless the second is greater. *)
Definition py_max (a b : Q) : Q := if Qltb a b then b else a.

(** [Environment.get_epsilon]; [None] stands for the [ZeroDivisionError] of
    a run of no episode.  [epsilon] is the pair [(MIN_EPSILON,
    MAX_EPSILON)] of the configuration. *)
Definition get_epsilon (epsilon : Q * Q) (_max_episodes _current_episode : Z)
  : option Q :=
if Z.eqb _max_episodes 0 then None
else
  let decay :=
    (inject_Z (_max_episodes + 1 - _current_episode) / inject_Z _max_episodes)%Q in
  Some (py_max (fst epsilon) (snd epsilon * decay)%Q).

(** [Configuration().epsilon] *)
Definition epsilon_init : Q * Q := (2 # 10, 1)%Q.

(** The counters of the deep Q-learning section of the configuration. *)
Record Dql : Type := mkDql
  { memory_batch_size : nat;
    target_update_frequency : nat;
    replay_start : nat;
    max_memory_size : nat }.

(** The check at the end of [Configuration.__init__]:
    [False] where it raises. *)
Definition accepted (c : Dql) : bool :=
negb (replay_start c <? memory_batch_size c).

Section Loop.

Variable item : Type.

(** What the innermost loop of [train] does to the memory and to the
    counter of training steps: [take_action] stores one transition, the
    counter goes up, and past the start of the replay [_train_network]
    samples a batch; [draw] is the draw of the generator for that sample. *)
Definition substep (c : Dql) (memory : Memory.Memory item) (_training_steps : nat)
           (transition : item) (draw : list nat)
  : result (Memory.Memory item * nat * option (list item)) :=
let memory := Memory.add memory transition in
let _training_steps := _training_steps + 1 in
if replay_start c <? _training_steps then
  train_batch <- Memory.sample memory draw (memory_batch_size c) ;;
  Ok (memory, _training_steps, Some train_batch)
else Ok (memory, _training_steps, None).

Fixpoint substeps (c : Dql) (memory : Memory.Memory item) (_training_steps : nat)
         (run : list (item * list nat))
  : result (Memory.Memory item * nat) :=
match run with
| [] => Ok (memory, _training_steps)
| (transition, draw) :: rest =>
    after <- substep c memory _training_steps transition draw ;;
    substeps c (fst (fst after)) (snd (fst after)) rest
end.

(** The draws of a run are shuffles of what the memory holds when they are
    made: after [steps + 1] insertions, at most the capacity. *)
Fixpoint well_drawn (capacity steps : nat) (run : list (item * list nat)) : Prop :=
match run with
| [] => True
| (_, draw) :: rest =>
    In draw (Shuffle.shuffles (Nat.min (steps + 1) capacity))
    /\ well_drawn capacity (steps + 1) rest
end.

(** [train]: the agent is reset, the counter set to zero, then the
    substeps follow one another. *)
Definition train (c : Dql) (run : list (item * list nat))
  : result (Memory.Memory item * nat) :=
substeps c (Memory.init item (max_memory_size c)) 0 run.

End Loop.

End Schedule.

(** ** agent.py: the greedy choice *)

Module Agent.

Import Network Training.

(** [np.squeeze(np.argmax(network.model(inputs), axis=-1))] for the single
    row [inputs] of [take_action]. *)
Definition greedy (network : Network) (features : list R) : nat :=
argmax (hd [] (model network [features])).

End Agent.

(** ** Vocabulary of the copies of a network *)

Module Copying.

Import Network NetworkObject.

(** The store [h] is [h0] with new variables after it. *)
Definition extends (h0 h : store) : Prop := exists added, h = h0 ++ added.

(** Every entry of the memo sends a variable of [h0] to a variable made
    since, which holds the value the first had in [h0]. *)
Definition memo_sound (h0 : store) (memo : list (ref * ref)) (h : store) : Prop :=
Forall (fun p => fst p < length h0
                 /\ length h0 <= snd p < length h
                 /\ value h (snd p) = value h0 (fst p))
       memo.

End Copying.

(** * Properties *)

(** ** The replay memory *)

Module MemoryFacts.

Import Memory.

Section WithItem.

Variable item : Type.

Implicit Types (d : deque item) (m : Memory item) (x : item).

Lemma deque_append_items d x :
  length (items d) <= maxlen d ->
  items (deque_append d x)
  = skipn (length (items d ++ [x]) - maxlen d) (items d ++ [x]).
Proof.
  intros Hle. unfold deque_append. cbn [items maxlen].
  rewrite length_app. cbn [length].
  destruct (Nat.ltb_spec (maxlen d) (length (items d) + 1)) as [Hfull | Hroom].
  - replace (length (items d) + 1 - maxlen d) with 1 by lia.
    destruct (items d ++ [x]); reflexivity.
  - replace (length (items d) + 1 - maxlen d) with 0 by lia.
    reflexivity.
Qed.

Lemma deque_append_maxlen d x : maxlen (deque_append d x) = maxlen d.
Proof. reflexivity. Qed.

Lemma deque_append_bounded d x :
  length (items d) <= maxlen d ->
  length (items (deque_append d x)) <= maxlen d.
Proof.
  intros Hle. rewrite deque_append_items by assumption.
  rewrite length_skipn, length_app. cbn [length]. lia.
Qed.

Lemma add_all_maxlen xs m :
  maxlen (_memory (add_all m xs)) = maxlen (_memory m).
Proof.
  revert m. induction xs as [| x xs IH]; intros m; [reflexivity |].
  unfold add_all in *. cbn [fold_left]. rewrite IH. reflexivity.
Qed.

(** After any insertions the memory holds the tail of everything that
    was ever in it, cut to the capacity. *)
Lemma add_all_items xs m :
  length (items (_memory m)) <= maxlen (_memory m) ->
  items (_memory (add_all m xs))
  = skipn (length (items (_memory m) ++ xs) - maxlen (_memory m))
          (items (_memory m) ++ xs).
Proof.
  revert m. induction xs as [| x xs IH]; intros m Hle.
  - cbn. rewrite app_nil_r.
    replace (length (items (_memory m)) - maxlen (_memory m)) with 0 by lia.
    reflexivity.
  - unfold add_all in *. cbn [fold_left].
    rewrite IH
      by (cbn [add _memory]; rewrite deque_append_maxlen;
          apply deque_append_bounded; exact Hle).
    cbn [add _memory]. rewrite deque_append_maxlen.
    rewrite deque_append_items by exact Hle.
    set (L := items (_memory m) ++ [x]).
    set (C := maxlen (_memory m)).
    assert (HL : length L <= C + 1)
      by (subst L C; rewrite length_app; cbn [length]; lia).
    replace (items (_memory m) ++ x :: xs) with (L ++ xs)
      by (subst L; rewrite <- app_assoc; reflexivity).
    assert (Hsk : skipn (length L - C) L ++ xs = skipn (length L - C) (L ++ xs)).
    { rewrite skipn_app.
      replace (length L - C - length L) with 0 by lia. reflexivity. }
    rewrite Hsk, skipn_skipn. f_equal.
    rewrite length_skipn, !length_app. lia.
Qed.

Lemma collect_in_range d idx :
  Forall (fun i => i < length (items d)) idx ->
  exists res,
    collect d idx = Ok res
    /\ Forall2 (fun i x => nth_error (items d) i = Some x) idx res.
Proof.
  induction 1 as [| i idx Hi _ IH].
  - exists []. split; [reflexivity | constructor].
  - destruct IH as [res [Hres Hall]].
    destruct (nth_error (items d) i) as [x |] eqn:Hx.
    + exists (x :: res). split.
      * cbn. unfold getitem. rewrite Hx. cbn. rewrite Hres. reflexivity.
      * constructor; assumption.
    + apply nth_error_None in Hx. lia.
Qed.

Lemma In_firstn (A : Type) (k : nat) (l : list A) (a : A) :
  In a (firstn k l) -> In a l.
Proof.
  intros Hin. rewrite <- (firstn_skipn k l).
  apply in_or_app. left. exact Hin.
Qed.

Lemma NoDup_firstn (A : Type) (k : nat) (l : list A) :
  NoDup l -> NoDup (firstn k l).
Proof.
  intros Hnd. rewrite <- (firstn_skipn k l) in Hnd.
  apply NoDup_app_remove_r in Hnd. exact Hnd.
Qed.

End WithItem.

End MemoryFacts.

(** ** The sample space of the generator *)

Module ShuffleFacts.

Import Shuffle.

Lemma selects_perm l x r : In (x, r) (selects l) -> Permutation l (x :: r).
Proof.
  revert x r. induction l as [| a t IH]; intros x r Hin; [contradiction |].
  cbn [selects] in Hin. destruct Hin as [Heq | Hin].
  - inversion Heq; subst. reflexivity.
  - apply in_map_iff in Hin. destruct Hin as [[y s] [Heq Hin]].
    cbn in Heq. inversion Heq; subst.
    apply IH in Hin. rewrite Hin. apply perm_swap.
Qed.

Lemma selects_in l x : In x l -> exists r, In (x, r) (selects l).
Proof.
  induction l as [| a t IH]; intros Hin; [contradiction |].
  destruct Hin as [-> | Hin].
  - exists t. left. reflexivity.
  - destruct (IH Hin) as [r Hr]. exists (a :: r). right.
    apply in_map_iff. exists (x, r). split; [reflexivity | exact Hr].
Qed.

Lemma selects_fst l p : In p (selects l) -> In (fst p) l.
Proof.
  destruct p as [x r]. intros Hin. apply selects_perm in Hin.
  apply Permutation_sym in Hin.
  apply (Permutation_in _ Hin). left. reflexivity.
Qed.

Lemma length_selects l : length (selects l) = length l.
Proof.
  induction l as [| a t IH]; [reflexivity |].
  cbn [selects length]. rewrite length_map, IH. reflexivity.
Qed.

(** [orderings] lists the permutations of its argument. *)
Lemma orderings_spec n : forall l p,
  length l = n -> (In p (orderings n l) <-> Permutation l p).
Proof.
  induction n as [| n IH]; intros l p Hlen.
  - destruct l; [| discriminate]. cbn. split.
    + intros [<- | []]. constructor.
    + intros Hp. apply Permutation_nil in Hp. left. symmetry. exact Hp.
  - cbn [orderings]. rewrite in_flat_map. split.
    + intros [[x r] [Hsel Hin]]. cbn [fst snd] in Hin.
      apply in_map_iff in Hin. destruct Hin as [q [<- Hq]].
      pose proof (selects_perm _ _ _ Hsel) as Hperm.
      apply IH in Hq.
      * rewrite Hperm. constructor. exact Hq.
      * apply Permutation_length in Hperm. cbn in Hperm. lia.
    + intros Hperm. destruct p as [| x q].
      * apply Permutation_length in Hperm. cbn in Hperm. lia.
      * assert (Hx : In x l).
        { apply Permutation_sym in Hperm.
          apply (Permutation_in _ Hperm). left. reflexivity. }
        destruct (selects_in _ _ Hx) as [r Hr].
        exists (x, r). split; [exact Hr |]. cbn [fst snd].
        apply in_map. pose proof (selects_perm _ _ _ Hr) as Hl.
        apply IH.
        -- apply Permutation_length in Hl. cbn in Hl. lia.
        -- apply Permutation_cons_inv with (a := x).
           rewrite <- Hl. exact Hperm.
Qed.

Lemma shuffles_spec n p : In p (shuffles n) <-> Permutation (seq 0 n) p.
Proof. apply orderings_spec. apply length_seq. Qed.

Lemma length_flat_map_const (A B : Type) (f : A -> list B) (c : nat) l :
  (forall a, In a l -> length (f a) = c) ->
  length (flat_map f l) = length l * c.
Proof.
  induction l as [| a t IH]; intros Hc; [reflexivity |].
  cbn [flat_map length]. rewrite length_app, Hc, IH.
  - lia.
  - intros b Hb. apply Hc. right. exact Hb.
  - left. reflexivity.
Qed.

Lemma length_orderings n : forall l,
  length l = n -> length (orderings n l) = fact n.
Proof.
  induction n as [| n IH]; intros l Hlen; [reflexivity |].
  cbn [orderings].
  rewrite length_flat_map_const with (c := fact n).
  - rewrite length_selects, Hlen. reflexivity.
  - intros [x r] Hin. cbn [fst snd]. rewrite length_map. apply IH.
    apply selects_perm, Permutation_length in Hin. cbn in Hin. lia.
Qed.

Lemma filter_flat_map (A B : Type) (f : B -> bool) (g : A -> list B) l :
  filter f (flat_map g l) = flat_map (fun a => filter f (g a)) l.
Proof.
  induction l as [| a t IH]; [reflexivity |].
  cbn [flat_map]. rewrite filter_app, IH. reflexivity.
Qed.

Lemma filter_none (A : Type) (f : A -> bool) l :
  (forall a, In a l -> f a = false) -> filter f l = [].
Proof.
  induction l as [| a t IH]; intros Hf; [reflexivity |].
  cbn [filter]. rewrite Hf by (left; reflexivity).
  apply IH. intros b Hb. apply Hf. right. exact Hb.
Qed.

(** When only the entry [x] contributes, the whole has the size of that
    contribution. *)
Lemma flat_map_selects_only (B : Type) x : forall l (F : nat * list nat -> list B),
  NoDup l -> In x l ->
  (forall p, fst p <> x -> F p = []) ->
  exists r, In (x, r) (selects l)
            /\ length (flat_map F (selects l)) = length (F (x, r)).
Proof.
  induction l as [| a t IH]; intros F Hnd Hin Hother; [contradiction |].
  inversion Hnd as [| ? ? Hnotin Hnd']; subst.
  cbn [selects flat_map]. rewrite length_app.
  destruct (Nat.eq_dec a x) as [-> | Hne].
  - exists t. split; [left; reflexivity |].
    rewrite length_flat_map_const with (c := 0); [lia |].
    intros p Hp. rewrite Hother; [reflexivity |].
    apply in_map_iff in Hp. destruct Hp as [q [<- Hq]]. cbn [fst].
    intros Heq. apply Hnotin. rewrite <- Heq. apply selects_fst. exact Hq.
  - rewrite (Hother (a, t)) by exact Hne. cbn [length].
    destruct Hin as [Heq | Hin]; [contradiction |].
    rewrite flat_map_concat_map, map_map, <- flat_map_concat_map.
    destruct (IH (fun p => F (fst p, a :: snd p)) Hnd' Hin) as [r [Hr Hlen]].
    + intros p Hp. apply Hother. exact Hp.
    + exists (a :: r). split.
      * right. apply in_map_iff. exists (x, r). split; [reflexivity | exact Hr].
      * exact Hlen.
Qed.

Lemma same_indexes_cons x y a b :
  same_indexes (x :: a) (y :: b) = Nat.eqb x y && same_indexes a b.
Proof.
  unfold same_indexes.
  destruct (list_eq_dec Nat.eq_dec (x :: a) (y :: b)) as [Heq | Hne].
  - inversion Heq; subst. rewrite Nat.eqb_refl.
    destruct (list_eq_dec Nat.eq_dec b b); [reflexivity | contradiction].
  - destruct (Nat.eqb_spec x y) as [-> | Hxy]; [| reflexivity].
    destruct (list_eq_dec Nat.eq_dec a b) as [-> | Hab]; [contradiction |].
    reflexivity.
Qed.

Lemma filter_under_head x pre qs :
  length (filter (fun p => same_indexes (firstn (S (length pre)) p) (x :: pre))
                 (map (cons x) qs))
  = length (filter (fun p => same_indexes (firstn (length pre) p) pre) qs).
Proof.
  induction qs as [| q t IHt]; [reflexivity |].
  cbn [map filter].
  rewrite firstn_cons, same_indexes_cons, Nat.eqb_refl. cbn [andb].
  destruct (same_indexes (firstn (length pre) q) pre); cbn [length];
    rewrite IHt; reflexivity.
Qed.

(** Every answer of [size] distinct entries comes from the same number
    of orderings. *)
Lemma orderings_with_prefix n : forall l pre,
  length l = n -> NoDup l -> NoDup pre -> incl pre l ->
  length (filter (fun p => same_indexes (firstn (length pre) p) pre)
                 (orderings n l))
  = fact (n - length pre).
Proof.
  induction n as [| n IH]; intros l pre Hlen Hnd Hpre Hincl.
  - destruct l; [| discriminate].
    destruct pre as [| x pre]; [reflexivity |].
    exfalso. apply (Hincl x). left. reflexivity.
  - destruct pre as [| x pre].
    + cbn [length firstn]. rewrite Nat.sub_0_r.
      rewrite <- (length_orderings (n := S n) l Hlen). f_equal.
      apply forallb_filter_id. apply forallb_forall. intros p _. reflexivity.
    + cbn [orderings]. rewrite filter_flat_map.
      inversion Hpre as [| ? ? Hx Hpre']; subst.
      set (F := fun a : nat * list nat =>
                  filter (fun p => same_indexes (firstn (length (x :: pre)) p) (x :: pre))
                         (map (cons (fst a)) (orderings n (snd a)))).
      destruct (@flat_map_selects_only _ x l F) as [r [Hr HlenF]].
      * exact Hnd.
      * apply Hincl. left. reflexivity.
      * intros p Hp. subst F. cbn beta.
        apply filter_none.
        intros q Hq. apply in_map_iff in Hq. destruct Hq as [q' [<- _]].
        cbn [length]. rewrite firstn_cons, same_indexes_cons.
        destruct (Nat.eqb_spec (fst p) x); [contradiction | reflexivity].
      * fold F. rewrite HlenF. subst F. cbn [fst snd].
        pose proof (selects_perm _ _ _ Hr) as Hperm.
        assert (Hndr : NoDup (x :: r)) by (rewrite <- Hperm; exact Hnd).
        inversion Hndr as [| ? ? Hxr Hndr']; subst.
        replace (S n - length (x :: pre)) with (n - length pre)
          by (cbn [length]; lia).
        rewrite <- (IH r pre).
        -- change (length (x :: pre)) with (S (length pre)).
           apply filter_under_head.
        -- apply Permutation_length in Hperm. cbn in Hperm. lia.
        -- exact Hndr'.
        -- exact Hpre'.
        -- intros y Hy.
           assert (Hyl : In y (x :: r)).
           { apply (Permutation_in _ Hperm). apply Hincl. right. exact Hy. }
           destruct Hyl as [<- | Hyr]; [contradiction | exact Hyr].
Qed.

Lemma distinct_below_bound n idx :
  NoDup idx -> Forall (fun i => i < n) idx -> length idx <= n.
Proof.
  intros Hnd Hall.
  assert (Hle : length idx <= length (seq 0 n)).
  2: { rewrite length_seq in Hle. exact Hle. }
  apply NoDup_incl_length; [exact Hnd |].
  intros i Hi. apply in_seq. rewrite Forall_forall in Hall.
  specialize (Hall i Hi). lia.
Qed.

Lemma filter_same (A : Type) (f g : A -> bool) l :
  (forall a, f a = g a) -> filter f l = filter g l.
Proof.
  intros Hfg. induction l as [| a t IH]; [reflexivity |].
  cbn [filter]. rewrite Hfg, IH. reflexivity.
Qed.

Lemma draws_giving_any n size idx :
  length idx = size -> NoDup idx -> Forall (fun i => i < n) idx ->
  length (draws_giving n size idx) = fact (n - size).
Proof.
  intros Hlen Hnd Hall. unfold draws_giving.
  pose proof (distinct_below_bound Hnd Hall) as Hle. rewrite Hlen in Hle.
  rewrite filter_same
    with (g := fun p => same_indexes (firstn size p) idx).
  - unfold shuffles. subst size.
    apply orderings_with_prefix.
    + apply length_seq.
    + apply seq_NoDup.
    + exact Hnd.
    + intros i Hi. apply in_seq. rewrite Forall_forall in Hall.
      specialize (Hall i Hi). lia.
  - intros p. unfold Memory.random_choice.
    destruct (Nat.ltb_spec n size); [lia | reflexivity].
Qed.

Lemma draws_giving_chosen n size idx p :
  In p (draws_giving n size idx) -> Memory.random_choice p n size = Ok idx.
Proof.
  unfold draws_giving. intros Hin. apply filter_In in Hin.
  destruct Hin as [_ Hch].
  destruct (Memory.random_choice p n size) as [chosen | e]; [| discriminate].
  cbn [chooses] in Hch. unfold same_indexes in Hch.
  destruct (list_eq_dec Nat.eq_dec chosen idx) as [-> |]; [reflexivity | discriminate].
Qed.

End ShuffleFacts.

(** ** Claims on the replay memory *)

(** C8. After more insertions than the capacity [C], the memory holds [C]
    items, they are the last [C] that were inserted, in the order of
    insertion, and the next insertion drops the oldest of them: this for
    every capacity and every sequence of insertions. *)
Theorem memory_overflow_keeps_newest (item : Type) (C : nat) (xs : list item) :
  C < length xs ->
  let m := Memory.add_all (Memory.init item C) xs in
  Memory.len m = C
  /\ Memory.items (Memory._memory m) = skipn (length xs - C) xs
  /\ forall x,
       Memory.items (Memory._memory (Memory.add m x))
       = tl (Memory.items (Memory._memory m) ++ [x]).
Proof.
  intros Hlt m.
  assert (Hitems : Memory.items (Memory._memory m) = skipn (length xs - C) xs).
  { subst m. rewrite MemoryFacts.add_all_items by (cbn; lia). reflexivity. }
  assert (Hlen : Memory.len m = C).
  { unfold Memory.len. rewrite Hitems, length_skipn. lia. }
  assert (Hmax : Memory.maxlen (Memory._memory m) = C).
  { subst m. rewrite MemoryFacts.add_all_maxlen. reflexivity. }
  repeat split; try assumption.
  intros x. cbn [Memory.add Memory._memory]. unfold Memory.deque_append.
  cbn [Memory.items]. rewrite Hmax, length_app. cbn [length].
  unfold Memory.len in Hlen. rewrite Hlen.
  destruct (Nat.ltb_spec C (C + 1)); [reflexivity | lia].
Qed.

Lemma memory_overflow_keeps_newest_witness :
  2 < length [10; 20; 30]
  /\ let m := Memory.add_all (Memory.init nat 2) [10; 20; 30] in
     Memory.len m = 2
     /\ Memory.items (Memory._memory m) = [20; 30]
     /\ forall x,
          Memory.items (Memory._memory (Memory.add m x))
          = tl (Memory.items (Memory._memory m) ++ [x]).
Proof.
  split; [cbn; lia |].
  apply (@memory_overflow_keeps_newest nat 2 [10; 20; 30]).
  cbn. lia.
Defined.

(** C9. Whatever the memory holds and whatever ordering the generator
    draws, a sample of [k] items with [k] at most the occupancy returns the
    [k] items stored at the [k] distinct places that [numpy.random.choice]
    answers for this draw; every choice of [k] distinct places, in every
    order, is what [sample] reads for exactly [(n - k)!] of the [n!] draws,
    so no choice is preferred; and a sample larger than the occupancy
    raises [ValueError]. *)
Theorem sample_distinct_uniform_or_error
        (item : Type) (m : Memory.Memory item) (permutation : list nat) (k : nat) :
  In permutation (Shuffle.shuffles (Memory.len m)) ->
  (k <= Memory.len m ->
   exists idx res,
     Memory.random_choice permutation (Memory.len m) k = Ok idx
     /\ Memory.sample m permutation k = Ok res
     /\ length res = k
     /\ length idx = k
     /\ NoDup idx
     /\ Forall2 (fun i x => nth_error (Memory.items (Memory._memory m)) i = Some x)
                idx res)
  /\ (forall idx,
        length idx = k -> NoDup idx ->
        Forall (fun i => i < Memory.len m) idx ->
        length (Shuffle.draws_giving (Memory.len m) k idx)
        = fact (Memory.len m - k)
        /\ exists res,
             Forall2 (fun i x =>
                        nth_error (Memory.items (Memory._memory m)) i = Some x)
                     idx res
             /\ forall p,
                  In p (Shuffle.draws_giving (Memory.len m) k idx) ->
                  Memory.sample m p k = Ok res)
  /\ (Memory.len m < k -> Memory.sample m permutation k = Raise ValueError).
Proof.
  intros Hdraw. apply ShuffleFacts.shuffles_spec in Hdraw.
  split; [| split].
  - intros Hk.
    assert (Hnd : NoDup permutation).
    { apply (Permutation_NoDup Hdraw). apply seq_NoDup. }
    assert (Hlen : length permutation = Memory.len m).
    { rewrite <- (Permutation_length Hdraw). apply length_seq. }
    assert (Hrange : Forall (fun i => i < Memory.len m) (firstn k permutation)).
    { apply Forall_forall. intros i Hi. apply MemoryFacts.In_firstn in Hi.
      apply Permutation_sym in Hdraw.
      apply (Permutation_in _ Hdraw) in Hi. apply in_seq in Hi. lia. }
    destruct (MemoryFacts.collect_in_range (Memory._memory m) Hrange)
      as [res [Hres Hall]].
    exists (firstn k permutation), res.
    assert (Hk' : length (firstn k permutation) = k)
      by (rewrite length_firstn; lia).
    assert (Hchoice : Memory.random_choice permutation (Memory.len m) k
                      = Ok (firstn k permutation)).
    { unfold Memory.random_choice.
      destruct (Nat.ltb_spec (Memory.len m) k); [lia | reflexivity]. }
    split; [exact Hchoice |]. split.
    { unfold Memory.sample. rewrite Hchoice. exact Hres. }
    split; [rewrite <- (Forall2_length Hall); exact Hk' |].
    split; [exact Hk' |].
    split; [apply MemoryFacts.NoDup_firstn; exact Hnd | exact Hall].
  - intros idx Hlen Hnd Hall.
    split; [apply ShuffleFacts.draws_giving_any; assumption |].
    destruct (MemoryFacts.collect_in_range (Memory._memory m) Hall)
      as [res [Hres Hread]].
    exists res. split; [exact Hread |].
    intros p Hp. unfold Memory.sample.
    rewrite (ShuffleFacts.draws_giving_chosen _ _ _ _ Hp). exact Hres.
  - intros Hk. unfold Memory.sample, Memory.random_choice.
    destruct (Nat.ltb_spec (Memory.len m) k); [reflexivity | lia].
Qed.

Lemma sample_distinct_uniform_or_error_witness :
  let m := Memory.add_all (Memory.init nat 3) [10; 20; 30] in
  In [2; 0; 1] (Shuffle.shuffles (Memory.len m))
  /\ (2 <= Memory.len m ->
      exists idx res,
        Memory.random_choice [2; 0; 1] (Memory.len m) 2 = Ok idx
        /\ Memory.sample m [2; 0; 1] 2 = Ok res
        /\ length res = 2
        /\ length idx = 2
        /\ NoDup idx
        /\ Forall2 (fun i x => nth_error (Memory.items (Memory._memory m)) i = Some x)
                   idx res)
  /\ (forall idx,
        length idx = 2 -> NoDup idx ->
        Forall (fun i => i < Memory.len m) idx ->
        length (Shuffle.draws_giving (Memory.len m) 2 idx)
        = fact (Memory.len m - 2)
        /\ exists res,
             Forall2 (fun i x =>
                        nth_error (Memory.items (Memory._memory m)) i = Some x)
                     idx res
             /\ forall p,
                  In p (Shuffle.draws_giving (Memory.len m) 2 idx) ->
                  Memory.sample m p 2 = Ok res)
  /\ (Memory.len m < 2 -> Memory.sample m [2; 0; 1] 2 = Raise ValueError).
Proof.
  intros m.
  assert (Hdraw : In [2; 0; 1] (Shuffle.shuffles (Memory.len m)))
    by (cbn; repeat (first [left; reflexivity | right])).
  split; [exact Hdraw |].
  exact (sample_distinct_uniform_or_error m [2; 0; 1] 2 Hdraw).
Defined.

(** Of the six draws for a memory of three items, the one that makes a
    sample of two read the places 2 and 0, in this order. *)
Example draws_reading_the_places_2_0 :
  Shuffle.draws_giving 3 2 [2; 0] = [[2; 0; 1]]
  /\ Shuffle.draws_giving 3 2 [0; 0] = []
  /\ Shuffle.draws_giving 3 4 [0; 1; 2; 0] = [].
Proof. repeat split. Qed.

Example sample_two_of_three :
  Memory.sample (Memory.add_all (Memory.init nat 3) [10; 20; 30]) [2; 0; 1] 2
  = Ok [30; 10].
Proof. reflexivity. Qed.

Example sample_four_of_three :
  Memory.sample (Memory.add_all (Memory.init nat 3) [10; 20; 30]) [2; 0; 1] 4
  = Raise ValueError.
Proof. reflexivity. Qed.

(** ** Equality of snapshots *)

Module StateFacts.

Import State Snapshot.

Lemma bind_ok (A B : Type) (r : result A) (k : A -> result B) (b : B) :
  bind r k = Ok b -> exists a, r = Ok a /\ k a = Ok b.
Proof.
  destruct r as [a | e]; cbn; intros H; [eauto | discriminate].
Qed.

Lemma and_then_ok r k b :
  and_then r k = Ok b ->
  (r = Ok false /\ b = false) \/ (r = Ok true /\ k = Ok b).
Proof.
  unfold and_then. intros H. apply bind_ok in H.
  destruct H as [[|] [Hr Hk]].
  - right. split; assumption.
  - left. split; [assumption | congruence].
Qed.

Lemma and_then_true r k :
  and_then r k = Ok true -> r = Ok true /\ k = Ok true.
Proof.
  intros H. apply and_then_ok in H.
  destruct H as [[_ H] | H]; [discriminate | exact H].
Qed.

Section Category.

Variable T : Type.
Variable get_name : T -> string.
Variable elem_eq : T -> T -> result bool.

Local Notation "'by_name' e" :=
  (fun other_e => String.eqb (get_name other_e) (get_name e)) (at level 10).

Lemma find_by_name_some l e o :
  find (by_name e) l = Some o -> In o l /\ get_name o = get_name e.
Proof.
  intros H. apply find_some in H. destruct H as [Hin Heq].
  split; [exact Hin | apply String.eqb_eq; exact Heq].
Qed.

Lemma find_unique l e :
  NoDup (map get_name l) -> In e l -> find (by_name e) l = Some e.
Proof.
  induction l as [| a t IH]; intros Hnd Hin; [contradiction |].
  cbn [map] in Hnd. inversion Hnd as [| ? ? Hnotin Hnd']; subst.
  cbn [find]. destruct (String.eqb_spec (get_name a) (get_name e)) as [Heq | Hne].
  - destruct Hin as [-> | Hin]; [reflexivity |].
    exfalso. apply Hnotin. rewrite Heq. apply in_map. exact Hin.
  - destruct Hin as [-> | Hin]; [contradiction |]. apply IH; assumption.
Qed.

Lemma find_same_name l e o :
  NoDup (map get_name l) -> In o l -> get_name o = get_name e ->
  find (by_name e) l = Some o.
Proof.
  intros Hnd Hin Heq. rewrite <- Heq. apply find_unique; assumption.
Qed.

Lemma find_skip pre l e :
  ~ In (get_name e) (map get_name pre) ->
  find (by_name e) (pre ++ l) = find (by_name e) l.
Proof.
  induction pre as [| a t IH]; intros Hnotin; [reflexivity |].
  cbn [app find]. destruct (String.eqb_spec (get_name a) (get_name e)) as [Heq | Hne].
  - exfalso. apply Hnotin. left. exact Heq.
  - apply IH. intros Hin. apply Hnotin. right. exact Hin.
Qed.

(** What a loop that ran to its end has checked. *)
Lemma each_equal_true l others :
  each_equal get_name elem_eq l others = Ok true ->
  forall e, In e l ->
    exists lb o, others = Some lb
                 /\ find (by_name e) lb = Some o
                 /\ elem_eq e o = Ok true.
Proof.
  induction l as [| a t IH]; intros H e Hin; [contradiction |].
  cbn [each_equal] in H. apply bind_ok in H.
  destruct H as [other_e [Hfind H]].
  destruct others as [lb |]; [| discriminate]. cbn in Hfind.
  injection Hfind as Hfind.
  destruct other_e as [o |]; [| discriminate].
  apply bind_ok in H. destruct H as [same [Heq H]].
  destruct same; [| discriminate].
  destruct Hin as [<- | Hin].
  - exists lb, o. repeat split; assumption.
  - apply IH; assumption.
Qed.

(** What a loop that stopped at [return False] has met. *)
Lemma each_equal_false l others :
  each_equal get_name elem_eq l others = Ok false ->
  exists e lb o, In e l /\ others = Some lb
                 /\ find (by_name e) lb = Some o
                 /\ elem_eq e o = Ok false.
Proof.
  induction l as [| a t IH]; intros H; [discriminate |].
  cbn [each_equal] in H. apply bind_ok in H.
  destruct H as [other_e [Hfind H]].
  destruct others as [lb |]; [| discriminate]. cbn in Hfind.
  injection Hfind as Hfind.
  destruct other_e as [o |]; [| discriminate].
  apply bind_ok in H. destruct H as [same [Heq H]].
  destruct same.
  - destruct (IH H) as [e [lb' [o' [Hin [Hlb [Hf He]]]]]].
    exists e, lb', o'. repeat split; try assumption. right. exact Hin.
  - exists a, lb, o. repeat split; try assumption. left. reflexivity.
Qed.

(** A category compared with itself, the names being unique. *)
Lemma each_equal_self la l :
  NoDup (map get_name la) -> incl l la ->
  (forall e, In e l -> elem_eq e e = Ok true) ->
  each_equal get_name elem_eq l (Some la) = Ok true.
Proof.
  intros Hnd. induction l as [| a t IH]; intros Hincl Hrefl; [reflexivity |].
  cbn [each_equal find_other bind].
  rewrite find_unique by (try assumption; apply Hincl; left; reflexivity).
  rewrite Hrefl by (left; reflexivity). cbn [bind].
  apply IH.
  - intros x Hx. apply Hincl. right. exact Hx.
  - intros x Hx. apply Hrefl. right. exact Hx.
Qed.

Lemma category_equal_self c :
  unique_names get_name c ->
  (forall e, elem_eq e e = Ok true) ->
  category_equal get_name elem_eq c c = Ok true.
Proof.
  intros Hnd Hrefl. destruct c as [[| e rest] |]; try reflexivity.
  unfold category_equal. apply each_equal_self.
  - exact Hnd.
  - apply incl_refl.
  - intros x _. apply Hrefl.
Qed.

(** The same, when an element compared with itself may raise. *)
Lemma each_equal_self_returns la l :
  NoDup (map get_name la) -> incl l la ->
  (forall e, returns (elem_eq e e) -> elem_eq e e = Ok true) ->
  returns (each_equal get_name elem_eq l (Some la)) ->
  each_equal get_name elem_eq l (Some la) = Ok true.
Proof.
  intros Hnd. induction l as [| a t IH]; intros Hincl Hrefl Hret; [reflexivity |].
  cbn [each_equal find_other bind] in *.
  rewrite find_unique in * by (try assumption; apply Hincl; left; reflexivity).
  destruct (elem_eq a a) as [same |] eqn:Haa.
  - rewrite (Hrefl a) in Haa by (exists same; exact Haa).
    injection Haa as <-. cbn [bind] in *.
    apply IH; try assumption.
    intros x Hx. apply Hincl. right. exact Hx.
  - destruct Hret as [b Hb]. discriminate.
Qed.

Lemma category_equal_self_returns c :
  unique_names get_name c ->
  (forall e, returns (elem_eq e e) -> elem_eq e e = Ok true) ->
  returns (category_equal get_name elem_eq c c) ->
  category_equal get_name elem_eq c c = Ok true.
Proof.
  intros Hnd Hrefl Hret. destruct c as [[| e rest] |]; try reflexivity.
  unfold category_equal in *. apply each_equal_self_returns; try assumption.
  apply incl_refl.
Qed.

(** A category compared with itself returns when its elements never
    raise, whatever the names. *)
Lemma each_equal_same_returns la l :
  incl l la ->
  (forall x y, returns (elem_eq x y)) ->
  returns (each_equal get_name elem_eq l (Some la)).
Proof.
  intros Hincl Htotal. induction l as [| a t IH]; [exists true; reflexivity |].
  cbn [each_equal find_other bind].
  destruct (find (by_name a) la) as [o |] eqn:Hfind.
  - destruct (Htotal a o) as [[|] Hao]; rewrite Hao; cbn [bind].
    + apply IH. intros x Hx. apply Hincl. right. exact Hx.
    + exists false. reflexivity.
  - exfalso.
    pose proof (find_none _ _ Hfind a (Hincl a (or_introl eq_refl))) as Hno.
    cbn beta in Hno. rewrite String.eqb_refl in Hno. discriminate.
Qed.

Lemma category_equal_same_returns c :
  (forall x y, returns (elem_eq x y)) ->
  returns (category_equal get_name elem_eq c c).
Proof.
  intros Htotal. destruct c as [[| e rest] |]; try (exists true; reflexivity).
  unfold category_equal. apply each_equal_same_returns; [apply incl_refl | exact Htotal].
Qed.

(** One element changed: the loop stops at it. *)
Lemma each_equal_changed pre e e' post :
  get_name e = get_name e' ->
  elem_eq e e' = Ok false ->
  NoDup (map get_name (pre ++ e :: post)) ->
  (forall x, elem_eq x x = Ok true) ->
  each_equal get_name elem_eq (pre ++ e :: post) (Some (pre ++ e' :: post))
  = Ok false.
Proof.
  intros Hname Hdiff Hnd Hrefl.
  assert (Hnd' : NoDup (map get_name (pre ++ e' :: post))).
  { rewrite map_app in *. cbn [map] in *. rewrite <- Hname. exact Hnd. }
  assert (Hpre : forall l, incl l pre ->
            each_equal get_name elem_eq (l ++ e :: post) (Some (pre ++ e' :: post))
            = Ok false).
  { induction l as [| a t IH]; intros Hincl.
    - cbn [app each_equal find_other bind].
      rewrite find_skip.
      + cbn [find]. rewrite Hname, String.eqb_refl. rewrite Hdiff. reflexivity.
      + rewrite map_app in Hnd. cbn [map] in Hnd.
        apply NoDup_remove_2 in Hnd. intros Hin. apply Hnd.
        apply in_or_app. left. exact Hin.
    - cbn [app each_equal find_other bind].
      rewrite find_unique.
      + rewrite Hrefl. cbn [bind]. apply IH.
        intros x Hx. apply Hincl. right. exact Hx.
      + exact Hnd'.
      + apply in_or_app. left. apply Hincl. left. reflexivity. }
  apply Hpre. apply incl_refl.
Qed.

Lemma category_equal_changed (differs : T -> T -> Prop) ca cb :
  one_changed get_name differs ca cb ->
  (forall x y, get_name x = get_name y -> differs x y -> elem_eq x y = Ok false) ->
  (forall x, elem_eq x x = Ok true) ->
  category_equal get_name elem_eq ca cb = Ok false.
Proof.
  intros [pre [e [e' [post [-> [-> [Hname [Hdiff Hnd]]]]]]]] Hsees Hrefl.
  unfold category_equal.
  destruct (pre ++ e :: post) as [| x rest] eqn:Hl.
  - destruct pre; discriminate.
  - rewrite <- Hl in Hnd |- *. apply each_equal_changed; try assumption.
    apply Hsees; assumption.
Qed.

(** Two lists of others that are alike place by place answer every lookup
    alike. *)
Lemma find_alike (alike : T -> T -> Prop) e lb lb' :
  (forall o o', alike o o' -> get_name o = get_name o') ->
  Forall2 alike lb lb' ->
  match find (by_name e) lb, find (by_name e) lb' with
  | Some o, Some o' => alike o o'
  | None, None => True
  | _, _ => False
  end.
Proof.
  intros Hname. induction 1 as [| o o' lb lb' Hoo' _ IH]; [exact I |].
  cbn [find]. rewrite <- (Hname o o' Hoo').
  destruct (String.eqb (get_name o) (get_name e)); [exact Hoo' | exact IH].
Qed.

Lemma each_equal_alike (alike : T -> T -> Prop) l lb lb' :
  (forall o o', alike o o' -> get_name o = get_name o') ->
  (forall o o' x, alike o o' -> elem_eq x o' = elem_eq x o) ->
  Forall2 alike lb lb' ->
  each_equal get_name elem_eq l (Some lb')
  = each_equal get_name elem_eq l (Some lb).
Proof.
  intros Hname Hsame Hall. induction l as [| e t IH]; [reflexivity |].
  cbn [each_equal find_other bind].
  pose proof (find_alike e Hname Hall) as Hfind.
  destruct (find (by_name e) lb) as [o |], (find (by_name e) lb') as [o' |];
    try contradiction; [| reflexivity].
  rewrite (Hsame o o' e Hfind), IH. reflexivity.
Qed.

(** One element retouched in what its class does not compare: the
    category answers as it does against itself. *)
Lemma category_equal_retouched (alike : T -> T -> Prop) ca cb :
  one_retouched alike ca cb ->
  (forall o, alike o o) ->
  (forall o o', alike o o' -> get_name o = get_name o') ->
  (forall o o' x, alike o o' -> elem_eq x o' = elem_eq x o) ->
  category_equal get_name elem_eq ca cb = category_equal get_name elem_eq ca ca.
Proof.
  intros [pre [e [e' [post [-> [-> Halike]]]]]] Hrefl Hname Hsame.
  unfold category_equal.
  destruct (pre ++ e :: post) as [| x rest] eqn:Hl.
  - destruct pre; discriminate.
  - rewrite <- Hl. apply each_equal_alike with (alike := alike); try assumption.
    apply Forall2_app.
    + clear Hl. induction pre as [| p t IH]; constructor; [apply Hrefl | exact IH].
    + constructor; [exact Halike |].
      clear Hl. induction post as [| p t IH]; constructor; [apply Hrefl | exact IH].
Qed.

(** Symmetry of one category, the names of the second being unique. *)
Lemma category_equal_sym ca cb r :
  (forall x y, elem_eq x y = Ok true -> elem_eq y x = Ok true) ->
  unique_names get_name cb ->
  category_equal get_name elem_eq ca cb = Ok true ->
  category_equal get_name elem_eq cb ca = Ok r ->
  r = true.
Proof.
  intros Hsym Hnd Hab Hba.
  destruct r; [reflexivity | exfalso].
  unfold category_equal in Hab, Hba.
  destruct cb as [[| y lb] |].
  - destruct ca as [[| x la] |]; discriminate.
  - destruct (each_equal_false _ _ Hba) as [e' [la [o' [Hin' [Hca [Hfind' Hdiff]]]]]].
    subst ca. apply find_by_name_some in Hfind'. destruct Hfind' as [Ho' Hname'].
    destruct la as [| x la']; [contradiction |].
    destruct (each_equal_true _ _ Hab o' Ho') as [lb' [o [Hlb [Hfind Hsame]]]].
    injection Hlb as <-.
    apply find_by_name_some in Hfind. destruct Hfind as [Ho Hname].
    assert (Heq : o = e').
    { cbn [unique_names] in Hnd.
      pose proof (@find_same_name (y :: lb) e' o Hnd Ho (eq_trans Hname Hname')) as H1.
      rewrite (@find_unique (y :: lb) e' Hnd Hin') in H1.
      injection H1 as H1. symmetry. exact H1. }
    subst o. apply Hsym in Hsame. congruence.
  - destruct ca as [[| x la] |]; discriminate.
Qed.

End Category.

End StateFacts.

(** ** The equality of every element class *)

Module ElementFacts.

Import Snapshot.

Lemma tuple_eq_refl xs : tuple_eq xs xs = true.
Proof.
  induction xs as [| x t IH]; [reflexivity |].
  cbn [tuple_eq]. rewrite Z.eqb_refl, IH. reflexivity.
Qed.

Lemma tuple_eq_comm xs : forall ys, tuple_eq xs ys = tuple_eq ys xs.
Proof.
  induction xs as [| x t IH]; intros [| y u]; try reflexivity.
  cbn [tuple_eq]. rewrite Z.eqb_sym, IH. reflexivity.
Qed.

Lemma State_eqb_refl s : SwitchCodes.State_eqb s s = true.
Proof. destruct s; reflexivity. Qed.

Lemma State_eqb_comm s u : SwitchCodes.State_eqb s u = SwitchCodes.State_eqb u s.
Proof. destruct s, u; reflexivity. Qed.

Lemma float_eq_refl x : float_eq x x = true.
Proof. apply Qeq_bool_refl. Qed.

Lemma float_eq_comm x y : float_eq x y = float_eq y x.
Proof. apply Qeq_bool_comm. Qed.

Create Rewrite HintDb elem_refl.

#[local] Hint Rewrite String.eqb_refl tuple_eq_refl State_eqb_refl float_eq_refl
  : elem_refl.

Ltac elem_refl :=
  intros; cbv beta delta [Capacitor.eq Switch.eq Transformer.eq Load.eq
                          Generator.eq VSource.eq ISource.eq];
  autorewrite with elem_refl; reflexivity.

Lemma Capacitor_eq_refl e : Capacitor.eq e e = Ok true.
Proof. elem_refl. Qed.
Lemma Switch_eq_refl e : Switch.eq e e = Ok true.
Proof. elem_refl. Qed.
Lemma Transformer_eq_refl e : Transformer.eq e e = Ok true.
Proof. elem_refl. Qed.
Lemma Load_eq_refl e : Load.eq e e = Ok true.
Proof. elem_refl. Qed.
Lemma Generator_eq_refl e : Generator.eq e e = Ok true.
Proof. elem_refl. Qed.
Lemma VSource_eq_refl e : VSource.eq e e = Ok true.
Proof. elem_refl. Qed.
Lemma ISource_eq_refl e : ISource.eq e e = Ok true.
Proof. elem_refl. Qed.

Lemma Capacitor_eq_comm x y : Capacitor.eq x y = Capacitor.eq y x.
Proof.
  unfold Capacitor.eq.
  rewrite String.eqb_sym, (tuple_eq_comm (Capacitor._states x)). reflexivity.
Qed.

Lemma Switch_eq_comm x y : Switch.eq x y = Switch.eq y x.
Proof.
  unfold Switch.eq.
  rewrite String.eqb_sym, (State_eqb_comm (Switch._state x)). reflexivity.
Qed.

Lemma Transformer_eq_comm x y : Transformer.eq x y = Transformer.eq y x.
Proof.
  unfold Transformer.eq.
  rewrite String.eqb_sym, (float_eq_comm (Transformer._tap x)). reflexivity.
Qed.

Lemma Load_eq_comm x y : Load.eq x y = Load.eq y x.
Proof.
  unfold Load.eq.
  rewrite String.eqb_sym, (float_eq_comm (Load._kw x)). reflexivity.
Qed.

Lemma Generator_eq_comm x y : Generator.eq x y = Generator.eq y x.
Proof.
  unfold Generator.eq.
  rewrite String.eqb_sym, (float_eq_comm (Generator._kw x)),
    (float_eq_comm (Generator._kvar x)), (float_eq_comm (Generator._pf x)).
  reflexivity.
Qed.

Lemma VSource_eq_comm x y : VSource.eq x y = VSource.eq y x.
Proof.
  unfold VSource.eq.
  rewrite String.eqb_sym, (float_eq_comm (VSource._vpu x)). reflexivity.
Qed.

Lemma ISource_eq_comm x y : ISource.eq x y = ISource.eq y x.
Proof.
  unfold ISource.eq.
  rewrite String.eqb_sym, (float_eq_comm (ISource._amps x)). reflexivity.
Qed.

(** A bus equals itself as soon as it has a voltage reading; with none the
    comparison raises. *)
Lemma Bus_eq_refl e : Bus._vpu e <> [] -> Bus.eq e e = Ok true.
Proof.
  intros Hread. unfold Bus.eq. rewrite String.eqb_refl.
  destruct (Bus._vpu e) as [| v rest] eqn:Hv; [contradiction |].
  cbn [mean bind]. rewrite float_eq_refl. reflexivity.
Qed.

Lemma Bus_eq_refl_returns e : returns (Bus.eq e e) -> Bus.eq e e = Ok true.
Proof.
  intros [b Hb]. destruct (Bus._vpu e) as [| v rest] eqn:Hv.
  - unfold Bus.eq in Hb. rewrite String.eqb_refl, Hv in Hb. discriminate.
  - apply Bus_eq_refl. rewrite Hv. discriminate.
Qed.

Lemma Bus_eq_no_reading name : Bus.eq (Bus.mk name []) (Bus.mk name [])
                               = Raise StatisticsError.
Proof. unfold Bus.eq. cbn [Bus._name Bus._vpu]. rewrite String.eqb_refl. reflexivity. Qed.

Lemma Bus_eq_sym x y : Bus.eq x y = Ok true -> Bus.eq y x = Ok true.
Proof.
  unfold Bus.eq. rewrite (String.eqb_sym (Bus._name y)).
  destruct (String.eqb (Bus._name x) (Bus._name y)); [| discriminate].
  destruct (mean (Bus._vpu x)) as [mx |]; [| discriminate].
  destruct (mean (Bus._vpu y)) as [my |]; [| discriminate].
  cbn [bind]. rewrite (float_eq_comm (round my 3)). exact (fun H => H).
Qed.

Lemma Bus_eq_agrees x y : Snapshot.bus_agrees x y -> Bus.eq x y = Ok true.
Proof.
  intros [Hname [mx [my [Hx [Hy Hround]]]]].
  unfold Bus.eq. rewrite Hname, String.eqb_refl, Hx, Hy. cbn [bind].
  rewrite Hround. reflexivity.
Qed.

(** What each class tells apart: a difference in a compared scalar makes
    its [__eq__] answer [False]. *)
Lemma tuple_eq_true xs : forall ys, tuple_eq xs ys = true -> xs = ys.
Proof.
  induction xs as [| x t IH]; intros [| y u] H; try discriminate; [reflexivity |].
  cbn [tuple_eq] in H. apply andb_true_iff in H. destruct H as [Hxy Htu].
  apply Z.eqb_eq in Hxy. rewrite Hxy, (IH u Htu). reflexivity.
Qed.

Lemma tuple_eq_differs xs ys : xs <> ys -> tuple_eq xs ys = false.
Proof.
  intros Hne. destruct (tuple_eq xs ys) eqn:H; [| reflexivity].
  exfalso. apply Hne. apply tuple_eq_true. exact H.
Qed.

Lemma State_eqb_differs s u : s <> u -> SwitchCodes.State_eqb s u = false.
Proof. destruct s, u; intros H; try reflexivity; exfalso; apply H; reflexivity. Qed.

Lemma float_eq_differs x y : ~ (x == y)%Q -> float_eq x y = false.
Proof.
  intros Hne. unfold float_eq. destruct (Qeq_bool x y) eqn:H; [| reflexivity].
  exfalso. apply Hne. apply Qeq_bool_iff. exact H.
Qed.

Lemma float_eq_same x y : (x == y)%Q -> float_eq x y = true.
Proof. intros H. apply Qeq_bool_iff. exact H. Qed.

Lemma float_eq_right x y y' : (y == y')%Q -> float_eq x y' = float_eq x y.
Proof.
  intros H. unfold float_eq.
  destruct (Qeq_bool x y) eqn:Hxy.
  - apply Qeq_bool_iff. apply Qeq_bool_iff in Hxy. rewrite Hxy. exact H.
  - destruct (Qeq_bool x y') eqn:Hxy'; [| reflexivity].
    apply Qeq_bool_iff in Hxy'. rewrite <- H in Hxy'.
    apply Qeq_bool_iff in Hxy'. congruence.
Qed.

Lemma Capacitor_eq_differs x y :
  Capacitor.get_name x = Capacitor.get_name y ->
  Capacitor_differs x y -> Capacitor.eq x y = Ok false.
Proof.
  intros _ H. unfold Capacitor.eq. rewrite (tuple_eq_differs H).
  rewrite andb_false_r. reflexivity.
Qed.

Lemma Switch_eq_differs x y :
  Switch.get_name x = Switch.get_name y ->
  Switch_differs x y -> Switch.eq x y = Ok false.
Proof.
  intros _ H. unfold Switch.eq. rewrite (State_eqb_differs H).
  rewrite andb_false_r. reflexivity.
Qed.

Lemma Transformer_eq_differs x y :
  Transformer.get_name x = Transformer.get_name y ->
  Transformer_differs x y -> Transformer.eq x y = Ok false.
Proof.
  intros _ H. unfold Transformer.eq. rewrite (float_eq_differs H).
  rewrite andb_false_r. reflexivity.
Qed.

Lemma Load_eq_differs x y :
  Load.get_name x = Load.get_name y ->
  Load_differs x y -> Load.eq x y = Ok false.
Proof.
  intros _ H. unfold Load.eq. rewrite (float_eq_differs H).
  rewrite andb_false_r. reflexivity.
Qed.

Lemma Generator_eq_differs x y :
  Generator.get_name x = Generator.get_name y ->
  Generator_differs x y -> Generator.eq x y = Ok false.
Proof.
  intros _ [H | [H | H]]; unfold Generator.eq; rewrite (float_eq_differs H);
    rewrite ?andb_false_r; reflexivity.
Qed.

Lemma VSource_eq_differs x y :
  VSource.get_name x = VSource.get_name y ->
  VSource_differs x y -> VSource.eq x y = Ok false.
Proof.
  intros _ H. unfold VSource.eq. rewrite (float_eq_differs H).
  rewrite andb_false_r. reflexivity.
Qed.

Lemma ISource_eq_differs x y :
  ISource.get_name x = ISource.get_name y ->
  ISource_differs x y -> ISource.eq x y = Ok false.
Proof.
  intros _ H. unfold ISource.eq. rewrite (float_eq_differs H).
  rewrite andb_false_r. reflexivity.
Qed.

(** What each class does not tell apart. *)
Lemma Capacitor_eq_alike o o' x :
  Capacitor_alike o o' -> Capacitor.eq x o' = Capacitor.eq x o.
Proof. intros [Hn Hs]. unfold Capacitor.eq. rewrite Hn, Hs. reflexivity. Qed.

Lemma Switch_eq_alike o o' x :
  Switch_alike o o' -> Switch.eq x o' = Switch.eq x o.
Proof. intros [Hn Hs]. unfold Switch.eq. rewrite Hn, Hs. reflexivity. Qed.

Lemma Transformer_eq_alike o o' x :
  Transformer_alike o o' -> Transformer.eq x o' = Transformer.eq x o.
Proof.
  intros [Hn Hs]. unfold Transformer.eq.
  rewrite Hn, (float_eq_right _ Hs). reflexivity.
Qed.

Lemma Load_eq_alike o o' x :
  Load_alike o o' -> Load.eq x o' = Load.eq x o.
Proof.
  intros [Hn Hs]. unfold Load.eq.
  rewrite Hn, (float_eq_right _ Hs). reflexivity.
Qed.

Lemma Capacitor_alike_refl o : Capacitor_alike o o.
Proof. split; reflexivity. Qed.
Lemma Switch_alike_refl o : Switch_alike o o.
Proof. split; reflexivity. Qed.
Lemma Transformer_alike_refl o : Transformer_alike o o.
Proof. split; reflexivity. Qed.
Lemma Load_alike_refl o : Load_alike o o.
Proof. split; reflexivity. Qed.

(** A bus is told from another of its name by the rounded mean of its
    readings. *)
Lemma Bus_eq_differs x y : Snapshot.bus_differs x y -> Bus.eq x y = Ok false.
Proof.
  intros [Hname [mx [my [Hx [Hy Hround]]]]].
  unfold Bus.eq. rewrite Hname, String.eqb_refl, Hx, Hy. cbn [bind].
  rewrite Hround. reflexivity.
Qed.

Lemma Bus_eq_paired x y :
  Snapshot.bus_paired x y ->
  (Snapshot.bus_agrees x y /\ Bus.eq x y = Ok true)
  \/ (Snapshot.bus_differs x y /\ Bus.eq x y = Ok false).
Proof.
  intros [Hname [Hx Hy]].
  destruct (Bus._vpu x) as [| vx tx] eqn:Ex; [contradiction |].
  destruct (Bus._vpu y) as [| vy ty] eqn:Ey; [contradiction |].
  destruct (mean (vx :: tx)) as [mx |] eqn:Hmx; [| discriminate].
  destruct (mean (vy :: ty)) as [my |] eqn:Hmy; [| discriminate].
  destruct (float_eq (round mx 3) (round my 3)) eqn:Hround.
  - assert (Hag : Snapshot.bus_agrees x y).
    { split; [exact Hname |]. exists mx, my. rewrite Ex, Ey. repeat split; assumption. }
    left. split; [exact Hag | apply Bus_eq_agrees; exact Hag].
  - assert (Hdf : Snapshot.bus_differs x y).
    { split; [exact Hname |]. exists mx, my. rewrite Ex, Ey. repeat split; assumption. }
    right. split; [exact Hdf | apply Bus_eq_differs; exact Hdf].
Qed.

Lemma sym_of_comm (T : Type) (elem_eq : T -> T -> result bool) :
  (forall x y, elem_eq x y = elem_eq y x) ->
  forall x y, elem_eq x y = Ok true -> elem_eq y x = Ok true.
Proof. intros Hcomm x y H. rewrite Hcomm. exact H. Qed.

End ElementFacts.

(** ** Whole snapshots *)

Module SnapshotFacts.

Import State Snapshot StateFacts ElementFacts.

(** The buses of two snapshots that agree bus by bus compare equal. *)
Lemma buses_compare_equal la lb :
  NoDup (map Bus.get_name la) ->
  Forall2 bus_agrees la lb ->
  category_equal Bus.get_name Bus.eq (Some la) (Some lb) = Ok true.
Proof.
  intros Hnd Hall.
  assert (Hnames : map Bus.get_name lb = map Bus.get_name la).
  { clear Hnd. induction Hall as [| x y la' lb' [Hxy _] _ IH]; [reflexivity |].
    cbn [map]. unfold Bus.get_name at 1 3. rewrite Hxy, IH. reflexivity. }
  assert (Hndb : NoDup (map Bus.get_name lb)) by (rewrite Hnames; exact Hnd).
  assert (Hloop : forall l l', Forall2 bus_agrees l l' -> incl l' lb ->
            each_equal Bus.get_name Bus.eq l (Some lb) = Ok true).
  { induction 1 as [| x y l l' Hxy _ IH]; intros Hincl; [reflexivity |].
    cbn [each_equal find_other bind].
    rewrite (@find_same_name _ Bus.get_name lb x y Hndb).
    - rewrite (Bus_eq_agrees Hxy). cbn [bind]. apply IH.
      intros z Hz. apply Hincl. right. exact Hz.
    - apply Hincl. left. reflexivity.
    - symmetry. exact (proj1 Hxy). }
  unfold category_equal. destruct la as [| x la'].
  - inversion Hall; subst. reflexivity.
  - apply (Hloop _ _ Hall). apply incl_refl.
Qed.

(** The buses of two snapshots, all read, of which one pair differs in
    rounded mean voltage, compare unequal. *)
Lemma buses_compare_unequal la lb :
  NoDup (map Bus.get_name la) ->
  Forall2 bus_paired la lb ->
  Exists (fun xy => bus_differs (fst xy) (snd xy)) (combine la lb) ->
  category_equal Bus.get_name Bus.eq (Some la) (Some lb) = Ok false.
Proof.
  intros Hnd Hall Hex.
  assert (Hnames : map Bus.get_name lb = map Bus.get_name la).
  { clear Hnd Hex. induction Hall as [| x y la' lb' [Hxy _] _ IH]; [reflexivity |].
    cbn [map]. unfold Bus.get_name at 1 3. rewrite Hxy, IH. reflexivity. }
  assert (Hndb : NoDup (map Bus.get_name lb)) by (rewrite Hnames; exact Hnd).
  assert (Hloop : forall l l', Forall2 bus_paired l l' -> incl l' lb ->
            Exists (fun xy => bus_differs (fst xy) (snd xy)) (combine l l') ->
            each_equal Bus.get_name Bus.eq l (Some lb) = Ok false).
  { induction 1 as [| x y l l' Hxy _ IH]; intros Hincl Hsome.
    - inversion Hsome.
    - cbn [each_equal find_other bind].
      rewrite (@find_same_name _ Bus.get_name lb x y Hndb).
      + destruct (Bus_eq_paired Hxy) as [[Hag Heq] | [Hdf Heq]];
          rewrite Heq; cbn [bind]; [| reflexivity].
        apply IH.
        * intros z Hz. apply Hincl. right. exact Hz.
        * cbn [combine] in Hsome.
          inversion Hsome as [? ? Hhead | ? ? Htail]; subst; [| exact Htail].
          exfalso. cbn [fst snd] in Hhead.
          pose proof (Bus_eq_differs Hhead) as Hno. congruence.
      + apply Hincl. left. reflexivity.
      + symmetry. exact (proj1 Hxy). }
  unfold category_equal. destruct la as [| x la'].
  - inversion Hall; subst. inversion Hex.
  - apply (Hloop _ _ Hall); [apply incl_refl | exact Hex].
Qed.

(** With the seven other categories the same and well named, the answer
    is that of the comparison of the buses. *)
Lemma eq_same_but_buses a b :
  same_but_buses a b -> well_named a ->
  State.eq a b = category_equal Bus.get_name Bus.eq (_buses a) (_buses b).
Proof.
  intros [H1 [H2 [H3 [H4 [H5 [H6 H7]]]]]] [N1 [N2 [N3 [N4 [N5 [N6 [N7 _]]]]]]].
  unfold State.eq. rewrite <- H1, <- H2, <- H3, <- H4, <- H5, <- H6, <- H7.
  rewrite (@category_equal_self _ _ _ _ N1 Capacitor_eq_refl).
  rewrite (@category_equal_self _ _ _ _ N2 Switch_eq_refl).
  rewrite (@category_equal_self _ _ _ _ N3 Transformer_eq_refl).
  rewrite (@category_equal_self _ _ _ _ N4 Load_eq_refl).
  rewrite (@category_equal_self _ _ _ _ N5 Generator_eq_refl).
  rewrite (@category_equal_self _ _ _ _ N6 ISource_eq_refl).
  rewrite (@category_equal_self _ _ _ _ N7 VSource_eq_refl).
  reflexivity.
Qed.

Lemma same_but_buses_refl a : same_but_buses a a.
Proof. repeat split. Qed.

(** A comparison that answered [True] ran through all eight categories. *)
Ltac split_chain H :=
  repeat (let Hc := fresh "Hc" in
          apply and_then_true in H; destruct H as [Hc H]).

(** One step of a comparison known to return, its category being the
    mirror of one that compared equal. *)
Ltac mirror_step Hba Hc Hname Hsym :=
  apply and_then_ok in Hba;
  destruct Hba as [[Hba _] | [_ Hba]];
  [ pose proof (@category_equal_sym _ _ _ _ _ _ Hsym Hname Hc Hba); discriminate | ].

Lemma eq_mirror a b r :
  well_named a ->
  State.eq b a = Ok true -> State.eq a b = Ok r -> r = true.
Proof.
  intros [N1 [N2 [N3 [N4 [N5 [N6 [N7 N8]]]]]]] Hba Hab.
  unfold State.eq in Hba, Hab. split_chain Hba.
  mirror_step Hab Hc N1 (sym_of_comm Capacitor.eq Capacitor_eq_comm).
  mirror_step Hab Hc0 N2 (sym_of_comm Switch.eq Switch_eq_comm).
  mirror_step Hab Hc1 N3 (sym_of_comm Transformer.eq Transformer_eq_comm).
  mirror_step Hab Hc2 N4 (sym_of_comm Load.eq Load_eq_comm).
  mirror_step Hab Hc3 N5 (sym_of_comm Generator.eq Generator_eq_comm).
  mirror_step Hab Hc4 N6 (sym_of_comm ISource.eq ISource_eq_comm).
  mirror_step Hab Hc5 N7 (sym_of_comm VSource.eq VSource_eq_comm).
  exact (@category_equal_sym _ _ _ _ _ _ Bus_eq_sym N8 Hba Hab).
Qed.

Lemma returns_total (T : Type) (elem_eq : T -> T -> result bool) :
  (forall x y, exists b, elem_eq x y = Ok b) ->
  forall x y, returns (elem_eq x y).
Proof. intros H x y. exact (H x y). Qed.

End SnapshotFacts.

(** ** Claims on the equality of snapshots *)

Module SnapshotClaims.

Import State Snapshot StateFacts ElementFacts SnapshotFacts.

Lemma Capacitor_eq_returns x y : returns (Capacitor.eq x y).
Proof. eexists; reflexivity. Qed.
Lemma Switch_eq_returns x y : returns (Switch.eq x y).
Proof. eexists; reflexivity. Qed.
Lemma Transformer_eq_returns x y : returns (Transformer.eq x y).
Proof. eexists; reflexivity. Qed.
Lemma Load_eq_returns x y : returns (Load.eq x y).
Proof. eexists; reflexivity. Qed.
Lemma Generator_eq_returns x y : returns (Generator.eq x y).
Proof. eexists; reflexivity. Qed.
Lemma ISource_eq_returns x y : returns (ISource.eq x y).
Proof. eexists; reflexivity. Qed.
Lemma VSource_eq_returns x y : returns (VSource.eq x y).
Proof. eexists; reflexivity. Qed.

(** A category that is the same on both sides either lets the comparison
    go on or ends it with [False]. *)
Ltac pass_same Hreturns :=
  match goal with
  | |- and_then (category_equal ?n ?e ?c ?c) _ = Ok false =>
      let Hb := fresh "Hb" in
      destruct (@category_equal_same_returns _ n e c Hreturns) as [[|] Hb];
      rewrite Hb; [cbn [and_then bind] | reflexivity]
  end.

Ltac stop_changed H Hsees Hrefl :=
  rewrite (@category_equal_changed _ _ _ _ _ _ H Hsees Hrefl); reflexivity.

(** C5 (as amended). When the seven categories other than the buses are
    the same in two snapshots, and their names are unique, the equality
    answers what the comparison of the buses answers: [True] when the buses
    agree in name and in mean voltage rounded to three decimals, and
    [False] when, every bus having a reading in both snapshots and the same
    name at the same place, the rounded mean voltage of some bus is not the
    same. *)
Theorem equality_follows_the_buses (a b : State.t) :
  same_but_buses a b -> well_named a ->
  State.eq a b = category_equal Bus.get_name Bus.eq (_buses a) (_buses b)
  /\ (buses_agree a b -> State.eq a b = Ok true)
  /\ (buses_differ a b -> State.eq a b = Ok false).
Proof.
  intros Hsame Hnamed.
  pose proof (eq_same_but_buses Hsame Hnamed) as Heq.
  destruct Hnamed as [_ [_ [_ [_ [_ [_ [_ N8]]]]]]].
  split; [exact Heq |]. split.
  - intros Hagree. rewrite Heq.
    unfold buses_agree in Hagree.
    destruct (_buses a) as [la |], (_buses b) as [lb |]; try contradiction.
    + apply buses_compare_equal; assumption.
    + reflexivity.
  - intros Hdiffer. rewrite Heq.
    unfold buses_differ in Hdiffer.
    destruct (_buses a) as [la |], (_buses b) as [lb |]; try contradiction.
    destruct Hdiffer as [Hpaired Hsome].
    apply buses_compare_unequal; assumption.
Qed.

(** C6 (as amended). When one element of one category other than the
    buses differs from its version in the other snapshot in a scalar that
    the equality of its class compares (the states of a capacitor, the state
    of a switch, the tap of a transformer, the kw of a load, the kw, kvar or
    pf of a generator, the vpu of a voltage source, the amps of a current
    source), the names of that category being unique and all the rest the
    same, the equality of the snapshots answers [False]; when the element
    differs only in scalars that its class does not compare, the equality
    answers what it answers for the snapshot compared with itself. *)
Theorem equality_sees_one_changed_entity (a b : State.t) :
  (one_entity_changed a b -> State.eq a b = Ok false)
  /\ (one_entity_retouched a b -> State.eq a b = State.eq a a).
Proof.
  split.
  - intros Hchanged.
    destruct Hchanged as [c H | c H | c H | c H | c H | c H | c H];
      unfold State.eq;
      cbn [set_capacitors set_switches set_transformers set_loads
           set_generators set_isources set_vsources
           _capacitors _switches _transformers _loads _generators
           _isources _vsources _buses].
    + stop_changed H Capacitor_eq_differs Capacitor_eq_refl.
    + pass_same Capacitor_eq_returns.
      stop_changed H Switch_eq_differs Switch_eq_refl.
    + pass_same Capacitor_eq_returns. pass_same Switch_eq_returns.
      stop_changed H Transformer_eq_differs Transformer_eq_refl.
    + pass_same Capacitor_eq_returns. pass_same Switch_eq_returns.
      pass_same Transformer_eq_returns.
      stop_changed H Load_eq_differs Load_eq_refl.
    + pass_same Capacitor_eq_returns. pass_same Switch_eq_returns.
      pass_same Transformer_eq_returns. pass_same Load_eq_returns.
      stop_changed H Generator_eq_differs Generator_eq_refl.
    + pass_same Capacitor_eq_returns. pass_same Switch_eq_returns.
      pass_same Transformer_eq_returns. pass_same Load_eq_returns.
      pass_same Generator_eq_returns.
      stop_changed H ISource_eq_differs ISource_eq_refl.
    + pass_same Capacitor_eq_returns. pass_same Switch_eq_returns.
      pass_same Transformer_eq_returns. pass_same Load_eq_returns.
      pass_same Generator_eq_returns. pass_same ISource_eq_returns.
      stop_changed H VSource_eq_differs VSource_eq_refl.
  - intros Hretouched.
    destruct Hretouched as [c H | c H | c H | c H];
      unfold State.eq;
      cbn [set_capacitors set_switches set_transformers set_loads
           _capacitors _switches _transformers _loads _generators
           _isources _vsources _buses].
    + rewrite (@category_equal_retouched _ Capacitor.get_name Capacitor.eq _ _ _ H
                 Capacitor_alike_refl (fun o o' Ho => proj1 Ho)
                 (@Capacitor_eq_alike)).
      reflexivity.
    + rewrite (@category_equal_retouched _ Switch.get_name Switch.eq _ _ _ H
                 Switch_alike_refl (fun o o' Ho => proj1 Ho)
                 (@Switch_eq_alike)).
      reflexivity.
    + rewrite (@category_equal_retouched _ Transformer.get_name Transformer.eq _ _ _ H
                 Transformer_alike_refl (fun o o' Ho => proj1 Ho)
                 (@Transformer_eq_alike)).
      reflexivity.
    + rewrite (@category_equal_retouched _ Load.get_name Load.eq _ _ _ H
                 Load_alike_refl (fun o o' Ho => proj1 Ho)
                 (@Load_eq_alike)).
      reflexivity.
Qed.

(** C7 (as amended). On snapshots whose names are unique within every
    category: a snapshot compared with itself answers [True] whenever the
    comparison returns, and it returns when every bus has a voltage
    reading; and when the two comparisons of a pair both return, one
    answers [True] exactly when the other does. *)
Theorem equality_reflexive_symmetric (a b : State.t) :
  well_named a -> well_named b ->
  (returns (State.eq a a) -> State.eq a a = Ok true)
  /\ (all_read a -> State.eq a a = Ok true)
  /\ (returns (State.eq a b) -> returns (State.eq b a) ->
      (State.eq a b = Ok true <-> State.eq b a = Ok true)).
Proof.
  intros Na Nb.
  pose proof (eq_same_but_buses (same_but_buses_refl a) Na) as Haa.
  destruct Na as [N1 [N2 [N3 [N4 [N5 [N6 [N7 N8]]]]]]].
  assert (Na : well_named a) by (repeat split; assumption).
  split; [| split; [| intros [ra Hra] [rb Hrb]; split]].
  - intros Hret. rewrite Haa in *.
    apply category_equal_self_returns; try assumption.
    apply Bus_eq_refl_returns.
  - intros Hread. rewrite Haa. unfold all_read in Hread.
    destruct (_buses a) as [[| x la] |]; try reflexivity.
    unfold category_equal. apply each_equal_self.
    + exact N8.
    + apply incl_refl.
    + intros e He. apply Bus_eq_refl. rewrite Forall_forall in Hread.
      apply Hread. exact He.
  - intros Hab. rewrite (@eq_mirror b a rb Nb Hab Hrb) in Hrb. exact Hrb.
  - intros Hba. rewrite (@eq_mirror a b ra Na Hba Hra) in Hra. exact Hra.
Qed.

Ltac names_unique :=
  repeat split; cbn; repeat constructor; cbn; intuition discriminate.

Local Open Scope Q_scope.

(** C5, the claim as it was stated: two snapshots with the same seven
    categories and different bus voltages are not equal. *)
Lemma equality_reads_bus_voltages :
  same_but_buses (feeder 100 [102 # 100; 101 # 100; 103 # 100])
                 (feeder 100 [98 # 100; 99 # 100; 97 # 100])
  /\ State.eq (feeder 100 [102 # 100; 101 # 100; 103 # 100])
              (feeder 100 [98 # 100; 99 # 100; 97 # 100]) = Ok false.
Proof. split; [repeat split | vm_compute; reflexivity]. Qed.

Lemma equality_follows_the_buses_witness :
  let a := feeder 100 [10004 # 10000] in
  let b := feeder 100 [10001 # 10000] in
  let c := feeder 100 [10006 # 10000] in
  (same_but_buses a b /\ well_named a /\ buses_agree a b
   /\ State.eq a b = Ok true)
  /\ (same_but_buses a c /\ well_named a /\ buses_differ a c
      /\ State.eq a c = Ok false).
Proof.
  intros a b c.
  assert (Hnamed : well_named a) by names_unique.
  assert (Hab : same_but_buses a b) by (repeat split).
  assert (Hac : same_but_buses a c) by (repeat split).
  assert (Hagree : buses_agree a b).
  { constructor; [| constructor]. split; [reflexivity |].
    eexists. eexists. split; [reflexivity |]. split; [reflexivity |].
    vm_compute. reflexivity. }
  assert (Hdiffer : buses_differ a c).
  { split.
    - constructor; [| constructor].
      split; [reflexivity |]. split; discriminate.
    - apply Exists_cons_hd. split; [reflexivity |].
      eexists. eexists. split; [reflexivity |]. split; [reflexivity |].
      vm_compute. reflexivity. }
  split.
  - split; [exact Hab |]. split; [exact Hnamed |]. split; [exact Hagree |].
    exact (proj1 (proj2 (equality_follows_the_buses Hab Hnamed)) Hagree).
  - split; [exact Hac |]. split; [exact Hnamed |]. split; [exact Hdiffer |].
    exact (proj2 (proj2 (equality_follows_the_buses Hac Hnamed)) Hdiffer).
Defined.

(** C6, the claim as it was stated: two snapshots that differ in the
    reactive power of one load, and in nothing else, are equal. *)
Lemma equality_misses_reactive_power :
  ~ (100 == 120)%Q
  /\ State.eq (feeder 100 [1; 1; 1]) (feeder 120 [1; 1; 1]) = Ok true.
Proof. split; [intros H; discriminate H | vm_compute; reflexivity]. Qed.

Lemma equality_sees_one_changed_entity_witness :
  let a := station in
  let capacitor := Capacitor.mk "C83" [1%Z; 1%Z] true in
  let switch := Switch.mk "SW1" true SwitchCodes.Open in
  let transformer := Transformer.mk "REG1A" (9 # 10) (11 # 10) 32 (10125 # 10000) in
  let load := Load.mk "S48" 180 210 100 (95 # 100) in
  let generator := Generator.mk "G1" 500 120 (98 # 100) in
  let isource := ISource.mk "I1" 12 in
  let vsource := VSource.mk "SOURCE" (105 # 100) in
  let load' := Load.mk "S48" 210 210 120 (9 # 10) in
  let transformer' := Transformer.mk "REG1A" (8 # 10) (12 # 10) 16 1 in
  let b1 := set_capacitors a (Some [capacitor]) in
  let b2 := set_switches a (Some [switch]) in
  let b3 := set_transformers a (Some [transformer]) in
  let b4 := set_loads a (Some [Load.mk "S47" 105 105 75 (9 # 10); load]) in
  let b5 := set_generators a (Some [generator]) in
  let b6 := set_isources a (Some [isource]) in
  let b7 := set_vsources a (Some [vsource]) in
  let r1 := set_loads a (Some [Load.mk "S47" 105 105 75 (9 # 10); load']) in
  let r2 := set_transformers a (Some [transformer']) in
  (one_entity_changed a b1 /\ State.eq a b1 = Ok false)
  /\ (one_entity_changed a b2 /\ State.eq a b2 = Ok false)
  /\ (one_entity_changed a b3 /\ State.eq a b3 = Ok false)
  /\ (one_entity_changed a b4 /\ State.eq a b4 = Ok false)
  /\ (one_entity_changed a b5 /\ State.eq a b5 = Ok false)
  /\ (one_entity_changed a b6 /\ State.eq a b6 = Ok false)
  /\ (one_entity_changed a b7 /\ State.eq a b7 = Ok false)
  /\ (one_entity_retouched a r1 /\ State.eq a r1 = State.eq a a)
  /\ (one_entity_retouched a r2 /\ State.eq a r2 = State.eq a a).
Proof.
  intros a capacitor switch transformer load generator isource vsource
         load' transformer' b1 b2 b3 b4 b5 b6 b7 r1 r2.
  assert (H1 : one_entity_changed a b1).
  { apply changed_capacitor.
    exists [], (Capacitor.mk "C83" [1%Z; 0%Z] true), capacitor, [].
    repeat split; [intros H; discriminate H | cbn; repeat constructor; intros []]. }
  assert (H2 : one_entity_changed a b2).
  { apply changed_switch.
    exists [], (Switch.mk "SW1" true SwitchCodes.Closed), switch, [].
    repeat split; [intros H; discriminate H | cbn; repeat constructor; intros []]. }
  assert (H3 : one_entity_changed a b3).
  { apply changed_transformer.
    exists [], (Transformer.mk "REG1A" (9 # 10) (11 # 10) 32 1), transformer, [].
    repeat split; [intros H; discriminate H | cbn; repeat constructor; intros []]. }
  assert (H4 : one_entity_changed a b4).
  { apply changed_load.
    exists [Load.mk "S47" 105 105 75 (9 # 10)],
           (Load.mk "S48" 210 210 100 (95 # 100)), load, [].
    repeat split; [intros H; discriminate H |].
    cbn. repeat constructor; cbn; intuition discriminate. }
  assert (H5 : one_entity_changed a b5).
  { apply changed_generator.
    exists [], (Generator.mk "G1" 500 100 (98 # 100)), generator, [].
    repeat split; [right; left; intros H; discriminate H
                  | cbn; repeat constructor; intros []]. }
  assert (H6 : one_entity_changed a b6).
  { apply changed_isource.
    exists [], (ISource.mk "I1" 10), isource, [].
    repeat split; [intros H; discriminate H | cbn; repeat constructor; intros []]. }
  assert (H7 : one_entity_changed a b7).
  { apply changed_vsource.
    exists [], (VSource.mk "SOURCE" 1), vsource, [].
    repeat split; [intros H; discriminate H | cbn; repeat constructor; intros []]. }
  assert (R1 : one_entity_retouched a r1).
  { apply retouched_load.
    exists [Load.mk "S47" 105 105 75 (9 # 10)],
           (Load.mk "S48" 210 210 100 (95 # 100)), load', [].
    repeat split. }
  assert (R2 : one_entity_retouched a r2).
  { apply retouched_transformer.
    exists [], (Transformer.mk "REG1A" (9 # 10) (11 # 10) 32 1), transformer', [].
    repeat split. }
  exact
    (conj (conj H1 (proj1 (equality_sees_one_changed_entity a b1) H1))
    (conj (conj H2 (proj1 (equality_sees_one_changed_entity a b2) H2))
    (conj (conj H3 (proj1 (equality_sees_one_changed_entity a b3) H3))
    (conj (conj H4 (proj1 (equality_sees_one_changed_entity a b4) H4))
    (conj (conj H5 (proj1 (equality_sees_one_changed_entity a b5) H5))
    (conj (conj H6 (proj1 (equality_sees_one_changed_entity a b6) H6))
    (conj (conj H7 (proj1 (equality_sees_one_changed_entity a b7) H7))
    (conj (conj R1 (proj2 (equality_sees_one_changed_entity a r1) R1))
    (conj R2 (proj2 (equality_sees_one_changed_entity a r2) R2)))))))))).
Defined.

(** C7, the claim as it was stated: a snapshot with two banks of one name
    is not equal to itself; the comparison of two snapshots answers [True]
    one way and [False] the other; and a snapshot with a bus without
    reading raises when compared with itself. *)
Lemma equality_not_reflexive_nor_symmetric :
  let c1 := Capacitor.mk "C83" [1%Z; 0%Z] true in
  let c2 := Capacitor.mk "C83" [1%Z; 1%Z] true in
  State.eq (banks [c1; c2]) (banks [c1; c2]) = Ok false
  /\ State.eq (banks [c1]) (banks [c1; c2]) = Ok true
  /\ State.eq (banks [c1; c2]) (banks [c1]) = Ok false
  /\ State.eq (feeder 100 []) (feeder 100 []) = Raise StatisticsError.
Proof. repeat split; vm_compute; reflexivity. Qed.

Lemma equality_reflexive_symmetric_witness :
  let a := feeder 100 [1; 1; 1] in
  let b := feeder 100 [105 # 100; 1; 1] in
  well_named a /\ well_named b
  /\ (returns (State.eq a a) -> State.eq a a = Ok true)
  /\ (all_read a -> State.eq a a = Ok true)
  /\ (returns (State.eq a b) -> returns (State.eq b a) ->
      (State.eq a b = Ok true <-> State.eq b a = Ok true)).
Proof.
  intros a b.
  assert (Na : well_named a) by names_unique.
  assert (Nb : well_named b) by names_unique.
  split; [exact Na |]. split; [exact Nb |].
  exact (equality_reflexive_symmetric Na Nb).
Defined.

End SnapshotClaims.

(** ** The reward *)

Module RewardFacts.

Import Configuration Environment.
Local Open Scope Q_scope.

Lemma Qltb_irrefl_eq x y : x == y -> Qltb x y = false.
Proof.
  intros H. unfold Qltb. apply negb_false_iff. apply Qle_bool_iff.
  rewrite H. apply Qle_refl.
Qed.

Lemma count_succ n :
  inject_Z (Z.of_nat (S n)) == inject_Z (Z.of_nat n) + 1.
Proof. rewrite Nat2Z.inj_succ, <- Z.add_1_r, inject_Z_plus. reflexivity. Qed.

Lemma no_last_action_no_undone action :
  _check_action_undone None action = false.
Proof. destruct action as [[[a0 a1] a2] |]; reflexivity. Qed.

(** One pair of readings: with a last action that the action undoes, the
    step raises as it does with no last action, or returns one penalty
    more. *)
Lemma reward_step_undone self action last_action p c acc acc0 k :
  _check_action_undone last_action action = true ->
  acc == acc0 + k * action_undone_penalty (_config self) ->
  match reward_step self action None p c acc0 with
  | Ok r0 =>
      exists r, reward_step self action last_action p c acc = Ok r
                /\ r == r0 + (k + 1) * action_undone_penalty (_config self)
  | Raise e => reward_step self action last_action p c acc = Raise e
  end.
Proof.
  intros Hundone Hacc. unfold reward_step.
  rewrite Hundone, no_last_action_no_undone.
  destruct (resolve_target self (bus c)) as [vt | e]; [| reflexivity].
  destruct (rounded_mean p) as [vb | e]; [| reflexivity].
  destruct (rounded_mean c) as [va | e]; [| reflexivity].
  cbn [bind]. eexists. split; [reflexivity |].
  destruct (Qltb (distance vt vb) (distance vt va));
    [| destruct (Qltb (distance vt va) (distance vt vb))];
    destruct (out_of_limits (_config self) vt va);
    try destruct action;
    rewrite Hacc; ring.
Qed.

Lemma reward_loop_undone self action last_action pairs :
  _check_action_undone last_action action = true ->
  forall acc acc0 k,
  acc == acc0 + inject_Z (Z.of_nat k) * action_undone_penalty (_config self) ->
  match reward_loop self action None pairs acc0 with
  | Ok r0 =>
      exists r, reward_loop self action last_action pairs acc = Ok r
                /\ r == r0 + inject_Z (Z.of_nat (k + length pairs))
                              * action_undone_penalty (_config self)
  | Raise e => reward_loop self action last_action pairs acc = Raise e
  end.
Proof.
  intros Hundone. induction pairs as [| [p c] rest IH]; intros acc acc0 k Hacc.
  - cbn [reward_loop length]. exists acc. split; [reflexivity |].
    rewrite Nat.add_0_r. exact Hacc.
  - cbn [reward_loop length].
    pose proof (@reward_step_undone self action last_action p c acc acc0
                  (inject_Z (Z.of_nat k)) Hundone Hacc) as Hstep.
    destruct (reward_step self action None p c acc0) as [r0 | e].
    + destruct Hstep as [r [Hr Hrel]]. rewrite Hr. cbn [bind].
      replace (k + S (length rest))%nat with (S k + length rest)%nat by lia.
      apply IH. rewrite Hrel, count_succ. reflexivity.
    + rewrite Hstep. reflexivity.
Qed.

End RewardFacts.

(** ** Claims on the reward *)

Module RewardClaims.

Import Configuration Environment RewardFacts.
Local Open Scope Q_scope.

(** C4 (as amended). For a bus whose distance to the target is unchanged
    (the two distances, computed on the rounded voltages in binary64 as the
    code computes them, are equal), the step adds the out-of-limits penalty
    when the new voltage is outside the band and, whether it is outside or
    not, the stand-still reward for the no-operation or the
    meaningless-action penalty for any other action; the penalty of an
    undone action comes on top. *)
Theorem unchanged_distance_adds_both_terms
        (self : Env) (action last_action : option Action)
        (p c : Reading) (reward vt vb va : Q) :
  resolve_target self (bus c) = Ok vt ->
  rounded_mean p = Ok vb ->
  rounded_mean c = Ok va ->
  distance vt vb == distance vt va ->
  exists r,
    reward_step self action last_action p c reward = Ok r
    /\ r == reward
            + (if out_of_limits (_config self) vt va
               then out_of_limits_penalty (_config self) else 0)
            + match action with
              | None => stand_still_reward_out_of_target (_config self)
              | Some _ => meaningless_action_penalty (_config self)
              end
            + (if _check_action_undone last_action action
               then action_undone_penalty (_config self) else 0).
Proof.
  intros Ht Hb Ha Hsame. unfold reward_step. rewrite Ht, Hb, Ha. cbn [bind].
  rewrite (Qltb_irrefl_eq Hsame), (Qltb_irrefl_eq (Qeq_sym _ _ Hsame)).
  eexists. split; [reflexivity |].
  destruct (out_of_limits (_config self) vt va);
    destruct action; destruct (_check_action_undone last_action _); ring.
Qed.

(** C10. When the action undoes the last one, the reward is the reward of
    the same call with no last action plus the undone penalty once for
    every pair of readings of the two states, and the call raises exactly
    when that one does; with no pair the reward is zero. *)
Theorem undone_penalty_once_per_bus
        (self : Env) (previous_state current_state : list Reading)
        (action last_action : option Action) :
  _check_action_undone last_action action = true ->
  match calculate_reward self previous_state current_state action None with
  | Ok r0 =>
      exists r,
        calculate_reward self previous_state current_state action last_action
        = Ok r
        /\ r == r0 + inject_Z (Z.of_nat (length (combine previous_state current_state)))
                     * action_undone_penalty (_config self)
  | Raise e =>
      calculate_reward self previous_state current_state action last_action
      = Raise e
  end
  /\ (combine previous_state current_state = [] ->
      calculate_reward self previous_state current_state action last_action
      = Ok 0).
Proof.
  intros Hundone. split.
  - unfold calculate_reward.
    apply (@reward_loop_undone self action last_action
             (combine previous_state current_state) Hundone 0 0 0%nat).
    cbn. ring.
  - intros Hnone. unfold calculate_reward. rewrite Hnone. reflexivity.
Qed.

(** C4, the claim as it was stated: a bus that stays at 0.90 for a target
    of 1, below the band, under the no-operation, brings the penalty and the
    stand-still reward together, not the penalty alone. *)
Lemma out_of_band_penalty_not_exclusive :
  let self := mkEnv Configuration.init None 1 in
  let reading := mkReading "150" [9 # 10; 9 # 10; 9 # 10] in
  rounded_mean reading = Ok (fround (9 # 10) 3)
  /\ out_of_limits (_config self) 1 (fround (9 # 10) 3) = true
  /\ exists r,
       calculate_reward self [reading] [reading] None None = Ok r
       /\ r == out_of_limits_penalty (_config self)
               + stand_still_reward_out_of_target (_config self)
       /\ ~ r == out_of_limits_penalty (_config self).
Proof.
  intros self reading.
  split; [vm_compute; reflexivity |]. split; [vm_compute; reflexivity |].
  eexists. split; [vm_compute; reflexivity |].
  split; [reflexivity | intros H; discriminate H].
Qed.

Lemma unchanged_distance_adds_both_terms_witness :
  let self := mkEnv Configuration.init None 1 in
  let p := mkReading "150" [7 # 8] in
  let c := mkReading "150" [9 # 8] in
  let vb := fround (7 # 8) 3 in
  let va := fround (9 # 8) 3 in
  resolve_target self (bus c) = Ok 1
  /\ rounded_mean p = Ok vb
  /\ rounded_mean c = Ok va
  /\ distance 1 vb == distance 1 va
  /\ exists r,
       reward_step self None None p c 0 = Ok r
       /\ r == 0
               + (if out_of_limits (_config self) 1 va
                  then out_of_limits_penalty (_config self) else 0)
               + stand_still_reward_out_of_target (_config self)
               + (if _check_action_undone None None
                  then action_undone_penalty (_config self) else 0).
Proof.
  intros self p c vb va.
  assert (Ht : resolve_target self (bus c) = Ok 1) by reflexivity.
  assert (Hb : rounded_mean p = Ok vb) by (vm_compute; reflexivity).
  assert (Ha : rounded_mean c = Ok va) by (vm_compute; reflexivity).
  assert (Hsame : distance 1 vb == distance 1 va) by (vm_compute; reflexivity).
  split; [exact Ht |]. split; [exact Hb |]. split; [exact Ha |].
  split; [exact Hsame |].
  exact (@unchanged_distance_adds_both_terms
           self None None p c 0 1 vb va Ht Hb Ha Hsame).
Defined.

(** The comparison is that of binary64: from 0.999 to 1.001 around the
    target 1 the two distances are 0.001 in decimal, but
    [1 - 0.999 > 1.001 - 1] in binary64, and the bus counts as having come
    closer. *)
Example float_distances_decide_the_branch :
  let self := mkEnv Configuration.init None 1 in
  (Qabs (1 - (999 # 1000)) == Qabs (1 - (1001 # 1000)))
  /\ distance 1 (1001 # 1000) < distance 1 (999 # 1000)
  /\ exists r,
       reward_step self None None (mkReading "150" [999 # 1000])
                   (mkReading "150" [1001 # 1000]) 0 = Ok r
       /\ r == toward_target_reward (_config self).
Proof.
  intros self. split; [reflexivity |]. split; [vm_compute; reflexivity |].
  eexists. split; [vm_compute; reflexivity | reflexivity].
Qed.

Lemma undone_penalty_once_per_bus_witness :
  let self := mkEnv Configuration.init None 1 in
  let before := [mkReading "150" [98 # 100]; mkReading "149" [97 # 100]] in
  let after := [mkReading "150" [99 # 100]; mkReading "149" [98 # 100]] in
  let action := Some ("change_tap"%string, "T1"%string, TapUp) in
  let last_action := Some ("change_tap"%string, "T1"%string, TapDown) in
  _check_action_undone last_action action = true
  /\ match calculate_reward self before after action None with
     | Ok r0 =>
         exists r,
           calculate_reward self before after action last_action = Ok r
           /\ r == r0 + inject_Z (Z.of_nat (length (combine before after)))
                        * action_undone_penalty (_config self)
     | Raise e =>
         calculate_reward self before after action last_action = Raise e
     end
  /\ (combine before after = [] ->
      calculate_reward self before after action last_action = Ok 0).
Proof.
  intros self before after action last_action.
  assert (Hundone : _check_action_undone last_action action = true)
    by reflexivity.
  split; [exact Hundone |].
  exact (@undone_penalty_once_per_bus self before after action last_action Hundone).
Defined.

Example undone_twice_for_two_buses :
  exists r,
    calculate_reward (mkEnv Configuration.init None 1)
      [mkReading "150" [98 # 100]; mkReading "149" [97 # 100]]
      [mkReading "150" [99 # 100]; mkReading "149" [98 # 100]]
      (Some ("change_tap"%string, "T1"%string, TapUp))
      (Some ("change_tap"%string, "T1"%string, TapDown)) = Ok r
    /\ r == (1 # 2) + (1 # 2) + 2 * action_undone_penalty Configuration.init.
Proof. eexists. split; [vm_compute; reflexivity | reflexivity]. Qed.

End RewardClaims.

(** ** The forward pass *)

Module NetworkFacts.

Import Network Examples.
Local Open Scope R_scope.

Ltac entries tac :=
  repeat (apply (f_equal2 (@cons R)); [ tac | ]); try reflexivity.

Ltac dense_by_computation :=
  unfold _dense_layer, add_bias, matmul, ncols, column, dot, corner, null, zeros;
  cbn [map seq length hd repeat nth combine fst snd fold_right Nat.sub];
  apply (f_equal2 (@cons (list R))); [| reflexivity];
  entries ltac:(apply f_equal; lra).

Lemma relu_0 : relu 0 = 0.
Proof. unfold relu. apply Rmax_left. lra. Qed.
Lemma relu_1 : relu 1 = 1.
Proof. unfold relu. apply Rmax_right. lra. Qed.
Lemma swish_0 : swish 0 = 0.
Proof. unfold swish. apply Rmult_0_l. Qed.
Lemma swish_1_pos : 0 < swish 1.
Proof.
  unfold swish. rewrite Rmult_1_l. apply Rinv_0_lt_compat.
  pose proof (exp_pos (Ropp 1)). lra.
Qed.

Lemma dense_corner_7_16 a act :
  _dense_layer [a :: zeros 6] (corner 7 16) [zeros 16] act = [act a :: repeat (act 0) 15].
Proof. dense_by_computation. Qed.
Lemma dense_corner_16_32 a act :
  _dense_layer [a :: zeros 15] (corner 16 32) [zeros 32] act = [act a :: repeat (act 0) 31].
Proof. dense_by_computation. Qed.
Lemma dense_corner_32_16 a act :
  _dense_layer [a :: zeros 31] (corner 32 16) [zeros 16] act = [act a :: repeat (act 0) 15].
Proof. dense_by_computation. Qed.
Lemma dense_corner_16_3 a act :
  _dense_layer [a :: zeros 15] (corner 16 3) [zeros 3] act = [act a :: repeat (act 0) 2].
Proof. dense_by_computation. Qed.
Lemma dense_null_32_16 a act :
  _dense_layer [a :: zeros 31] (null 32 16) [zeros 16] act = [repeat (act 0) 16].
Proof. dense_by_computation. Qed.
Lemma dense_null_16_1 a act :
  _dense_layer [a :: zeros 15] (null 16 1) [zeros 1] act = [repeat (act 0) 1].
Proof. dense_by_computation. Qed.

Lemma dense_layer_cons r x w b act :
  _dense_layer (r :: x) w b act = _dense_layer [r] w b act ++ _dense_layer x w b act.
Proof. reflexivity. Qed.

Ltac layer_by_rows single :=
  let l := fresh "l" in let a := fresh "a" in let IH := fresh "IH" in
  intros l; induction l as [| a l IH]; [reflexivity |];
  cbn [map]; rewrite dense_layer_cons, single, IH;
  cbn [app repeat]; rewrite ?relu_0, ?swish_0; reflexivity.

Lemma carrier_layer_1 : forall l,
  _dense_layer (map (fun a => a :: zeros 6) l) (corner 7 16) [zeros 16] relu
  = map (fun a => relu a :: zeros 15) l.
Proof. layer_by_rows dense_corner_7_16. Qed.

Lemma carrier_layer_2 : forall l,
  _dense_layer (map (fun a => a :: zeros 15) l) (corner 16 32) [zeros 32] relu
  = map (fun a => relu a :: zeros 31) l.
Proof. layer_by_rows dense_corner_16_32. Qed.

Lemma carrier_value_1 : forall l,
  _dense_layer (map (fun a => a :: zeros 31) l) (null 32 16) [zeros 16] relu
  = map (fun a => 0 :: zeros 15) l.
Proof. layer_by_rows dense_null_32_16. Qed.

Lemma carrier_value_2 : forall l,
  _dense_layer (map (fun a => a :: zeros 15) l) (null 16 1) [zeros 1] swish
  = map (fun a => [0]) l.
Proof. layer_by_rows dense_null_16_1. Qed.

Lemma carrier_advantage_1 : forall l,
  _dense_layer (map (fun a => a :: zeros 31) l) (corner 32 16) [zeros 16] relu
  = map (fun a => relu a :: zeros 15) l.
Proof. layer_by_rows dense_corner_32_16. Qed.

Lemma carrier_advantage_2 : forall l,
  _dense_layer (map (fun a => a :: zeros 15) l) (corner 16 3) [zeros 3] swish
  = map (fun a => [swish a; 0; 0]) l.
Proof. layer_by_rows dense_corner_16_3. Qed.

Lemma model_streams self x :
  model self x = combine_streams (value_stream self x) (advantage_stream self x)
                                 (reduce_mean (advantage_stream self x)).
Proof. reflexivity. Qed.

Lemma carrier_hidden X l :
  transform scaler7 X = map (fun a => a :: zeros 6) l ->
  hidden carrier X = map (fun a => relu (relu a) :: zeros 31) l.
Proof.
  intros HX. unfold hidden. cbn [_scaler _weights _bias carrier item nth no_bias].
  rewrite HX, carrier_layer_1.
  rewrite <- (map_map (fun a => relu a) (fun a => a :: zeros 15)), carrier_layer_2.
  rewrite map_map. reflexivity.
Qed.

Lemma carrier_value X l :
  transform scaler7 X = map (fun a => a :: zeros 6) l ->
  value_stream carrier X = map (fun a => [0]) l.
Proof.
  intros HX. unfold value_stream. rewrite (@carrier_hidden X l HX).
  cbn [_weights _bias carrier item nth no_bias].
  rewrite <- (map_map (fun a => relu (relu a)) (fun a => a :: zeros 31)), carrier_value_1.
  rewrite <- (map_map (fun a => 0) (fun a => a :: zeros 15)), carrier_value_2.
  rewrite !map_map. reflexivity.
Qed.

Lemma carrier_advantage X l :
  transform scaler7 X = map (fun a => a :: zeros 6) l ->
  advantage_stream carrier X = map (fun a => [swish (relu (relu (relu a))); 0; 0]) l.
Proof.
  intros HX. unfold advantage_stream. rewrite (@carrier_hidden X l HX).
  cbn [_weights _bias carrier item nth no_bias].
  rewrite <- (map_map (fun a => relu (relu a)) (fun a => a :: zeros 31)), carrier_advantage_1.
  rewrite <- (map_map (fun a => relu a) (fun a => a :: zeros 15)), carrier_advantage_2.
  rewrite !map_map. reflexivity.
Qed.

Lemma transform_batch_ab :
  transform scaler7 batch_ab = map (fun a => a :: zeros 6) [0; 1].
Proof.
  unfold transform, transform_row, scaler7, batch_ab, row_a, row_b, min_, scale_, zeros.
  cbn [map combine data_min_ data_max_ fst snd repeat].
  unfold scale_of.
  repeat match goal with
         | |- context [Req_dec_T ?a ?b] => destruct (Req_dec_T a b); try lra
         end.
  repeat (apply (f_equal2 (@cons (list R))); [entries ltac:(field; lra) |]).
  reflexivity.
Qed.

Lemma relu_idem a : relu (relu a) = relu a.
Proof. unfold relu. apply Rmax_right. apply Rmax_l. Qed.

Lemma model_carrier_batch_ab :
  model carrier batch_ab
  = [[0 + (0 - swish 1 / 6); 0 + (0 - swish 1 / 6); 0 + (0 - swish 1 / 6)];
     [0 + (swish 1 - swish 1 / 6); 0 + (0 - swish 1 / 6); 0 + (0 - swish 1 / 6)]].
Proof.
  rewrite model_streams.
  rewrite (@carrier_value batch_ab [0; 1] transform_batch_ab).
  rewrite (@carrier_advantage batch_ab [0; 1] transform_batch_ab).
  cbn [map]. rewrite !relu_0, !relu_1, swish_0.
  assert (Hm : reduce_mean [[0; 0; 0]; [swish 1; 0; 0]] = swish 1 / 6).
  { unfold reduce_mean, sum_all, count_all. cbn [map fold_right length Nat.add].
    change (INR 6) with (IZR 6) || (replace (INR 6) with 6 by (cbn; lra)). lra. }
  rewrite Hm. reflexivity.
Qed.

Lemma sum_shifted (m : R) (a : list R) :
  fold_right Rplus 0 (map (fun e => e - m) a)
  = fold_right Rplus 0 a - INR (length a) * m.
Proof.
  induction a as [| e t IH].
  - cbn. lra.
  - cbn [map fold_right]. rewrite IH.
    change (length (e :: t)) with (S (length t)). rewrite S_INR. lra.
Qed.

(** [Q - V] of a row of the output is the advantage of the row less the
    mean that [model] subtracted. *)
Lemma minus_value_of_combined v a m :
  minus_value (map (fun e => hd 0 v + (e - m)) a) v = map (fun e => e - m) a.
Proof.
  unfold minus_value. rewrite map_map. apply map_ext. intros e. lra.
Qed.

Lemma row_mean_shifted (m : R) (a : list R) :
  a <> [] ->
  row_mean (map (fun e => e - m) a) = row_mean a - m.
Proof.
  intros Hne. unfold row_mean. rewrite sum_shifted, length_map.
  assert (Hn : INR (length a) <> 0).
  { apply not_0_INR. destruct a; [contradiction | discriminate]. }
  field. exact Hn.
Qed.

(** Row [i] of the output: its mean over the actions, the value taken off,
    is the mean of the row's advantages less the mean of the advantages of
    the whole batch. *)
Lemma row_mean_of_model self x i :
  (i < length x)%nat ->
  nth i (advantage_stream self x) [] <> [] ->
  row_mean (minus_value (nth i (model self x) []) (nth i (value_stream self x) []))
  = row_mean (nth i (advantage_stream self x) [])
    - reduce_mean (advantage_stream self x).
Proof.
  intros Hi Hne. rewrite model_streams.
  set (V := value_stream self x) in *. set (A := advantage_stream self x) in *.
  set (m := reduce_mean A).
  assert (HV : length V = length x).
  { subst V. unfold value_stream, hidden, _dense_layer, add_bias, matmul, transform.
    rewrite !length_map. reflexivity. }
  assert (HA : length A = length x).
  { subst A. unfold advantage_stream, hidden, _dense_layer, add_bias, matmul, transform.
    rewrite !length_map. reflexivity. }
  unfold combine_streams.
  set (F := fun p : list R * list R => map (fun a => hd 0 (fst p) + (a - m)) (snd p)).
  change (nth i (map F (combine V A)) []) with (nth i (map F (combine V A)) (F ([], []))).
  rewrite map_nth, combine_nth by lia. subst F. cbn [fst snd].
  rewrite minus_value_of_combined. apply row_mean_shifted. exact Hne.
Qed.

(** For a batch of one row the two means are the same. *)
Lemma reduce_mean_single (a : list R) : reduce_mean [a] = row_mean a.
Proof.
  unfold reduce_mean, row_mean, sum_all, count_all.
  cbn [map fold_right]. rewrite Rplus_0_r, Nat.add_0_r. reflexivity.
Qed.

Lemma advantage_stream_single self row :
  advantage_stream self [row] = [nth 0 (advantage_stream self [row]) []].
Proof. reflexivity. Qed.

Lemma single_row_centred self row :
  nth 0 (advantage_stream self [row]) [] <> [] ->
  row_mean (minus_value (nth 0 (model self [row]) [])
                        (nth 0 (value_stream self [row]) [])) = 0.
Proof.
  intros Hne. rewrite row_mean_of_model; [| cbn; lia | exact Hne].
  rewrite (advantage_stream_single self row) at 2.
  rewrite reduce_mean_single. lra.
Qed.

End NetworkFacts.

(** ** Claims on the forward pass *)

Module NetworkClaims.

Import Network Examples NetworkFacts.
Local Open Scope R_scope.

(** C1, at a batch of two rows: the mean that [model] subtracts is taken
    over the whole batch, so the first row of the output, its value taken
    off, has the mean [- swish 1 / 6] over the actions, which is not zero;
    the output of the row is not [V + (A - mean of A over the row)]. *)
Theorem batch_rows_not_centred :
  let q := model carrier batch_ab in
  let v := value_stream carrier batch_ab in
  let a := advantage_stream carrier batch_ab in
  row_mean (minus_value (nth 0 q []) (nth 0 v [])) = - (swish 1 / 6)
  /\ row_mean (minus_value (nth 0 q []) (nth 0 v [])) <> 0
  /\ nth 0 q []
     <> map (fun e => hd 0 (nth 0 v []) + (e - row_mean (nth 0 a []))) (nth 0 a []).
Proof.
  intros q v a. subst q v a.
  rewrite model_carrier_batch_ab.
  rewrite (@carrier_value batch_ab [0; 1] transform_batch_ab).
  rewrite (@carrier_advantage batch_ab [0; 1] transform_batch_ab).
  cbn [map nth hd]. rewrite !relu_0, swish_0.
  pose proof swish_1_pos as Hpos.
  assert (Hmean : row_mean (minus_value [0 + (0 - swish 1 / 6); 0 + (0 - swish 1 / 6);
                                         0 + (0 - swish 1 / 6)] [0])
                  = - (swish 1 / 6)).
  { unfold row_mean, minus_value. cbn [map fold_right length hd].
    replace (INR 3) with 3 by (cbn; lra). lra. }
  split; [exact Hmean |]. split.
  - rewrite Hmean. lra.
  - intros Heq. injection Heq as Heq _.
    unfold row_mean in Heq. cbn [fold_right length] in Heq.
    replace (INR 3) with 3 in Heq by (cbn; lra). lra.
Qed.

End NetworkClaims.

(** ** The variables of two networks *)

Module NetworkObjectFacts.

Import Network NetworkObject Examples NetworkFacts.

Lemma value_app h h' r : r < length h -> value (h ++ h') r = value h r.
Proof. intros Hr. unfold value. apply app_nth1. exact Hr. Qed.

Lemma value_new h v : value (h ++ [v]) (length h) = v.
Proof. unfold value. rewrite app_nth2, Nat.sub_diag by lia. reflexivity. Qed.

Lemma map_value_app h h' refs :
  Forall (fun r => r < length h) refs ->
  map (value (h ++ h')) refs = map (value h) refs.
Proof.
  intros Hall. apply map_ext_in. intros r Hr. apply value_app.
  rewrite Forall_forall in Hall. apply Hall. exact Hr.
Qed.

(** [get_variables]: the new variables take the next addresses, hold the
    values of the old ones, and nothing that was in the store changes. *)
Lemma copy_each_spec refs : forall h,
  Forall (fun r => r < length h) refs ->
  copy_each h refs = (seq (length h) (length refs), h ++ map (value h) refs).
Proof.
  induction refs as [| r rest IH]; intros h Hall.
  - cbn. rewrite app_nil_r. reflexivity.
  - inversion Hall as [| ? ? Hr Hrest]; subst.
    cbn [copy_each Variable_].
    rewrite IH.
    + rewrite length_app. cbn [length map seq].
      replace (length h + 1) with (S (length h)) by lia.
      rewrite <- app_assoc. cbn [app].
      rewrite map_value_app by exact Hrest. reflexivity.
    + rewrite length_app. cbn [length].
      apply Forall_impl with (2 := Hrest). intros a Ha. lia.
Qed.

Lemma length_assign h r v : length (assign h r v) = length h.
Proof.
  revert r. induction h as [| x rest IH]; intros [| r]; cbn; try reflexivity.
  rewrite IH. reflexivity.
Qed.

Lemma value_assign_other h r v r' : r <> r' -> value (assign h r v) r' = value h r'.
Proof.
  unfold value. revert r r'.
  induction h as [| x rest IH]; intros [| r] [| r'] Hne; cbn; try reflexivity.
  - contradiction.
  - apply IH. intros Heq. apply Hne. rewrite Heq. reflexivity.
Qed.

Lemma value_assign_same h r v : r < length h -> value (assign h r v) r = v.
Proof.
  unfold value. revert r.
  induction h as [| x rest IH]; intros [| r] Hr; cbn in *; try lia; try reflexivity.
  apply IH. lia.
Qed.

Lemma value_assign_all_other updates : forall h r',
  ~ In r' (map fst updates) -> value (assign_all h updates) r' = value h r'.
Proof.
  induction updates as [| [r v] rest IH]; intros h r' Hnotin; [reflexivity |].
  cbn [assign_all]. rewrite IH.
  - apply value_assign_other. intros Heq. apply Hnotin. left. exact Heq.
  - intros Hin. apply Hnotin. right. exact Hin.
Qed.

(** What [model] computes depends on the store only through the variables
    of [_weights] and [_bias]. *)
Lemma model_same_values self h h' x :
  map (value h') (_weights self) = map (value h) (_weights self) ->
  map (value h') (_bias self) = map (value h) (_bias self) ->
  model self h' x = model self h x.
Proof.
  intros Hw Hb. unfold model, values. rewrite Hw, Hb. reflexivity.
Qed.


Lemma model_frame self h h' x :
  (forall r, In r (_weights self ++ _bias self) -> value h' r = value h r) ->
  model self h' x = model self h x.
Proof.
  intros Hsame. apply model_same_values; apply map_ext_in; intros r Hr;
    apply Hsame; apply in_or_app; [left | right]; exact Hr.
Qed.

(** [update_variables] writes [_variables] only, and [model] does not read
    it. *)
Lemma update_variables_keeps_model self variables h x :
  model (update_variables self variables) h x = model self h x.
Proof. reflexivity. Qed.

Lemma allocated_reads self h r :
  allocated self h -> In r (_weights self ++ _bias self) -> r < length h.
Proof.
  unfold allocated. rewrite Forall_forall. intros Hall Hr. apply Hall.
  rewrite app_assoc. apply in_or_app. left. exact Hr.
Qed.

Lemma allocated_variables self h :
  allocated self h -> Forall (fun r => r < length h) (_variables self).
Proof.
  unfold allocated. rewrite !Forall_app. intros [_ [_ H]]. exact H.
Qed.

(** The variables handed out by [get_variables] are new objects holding
    the present values, and the store is otherwise as before. *)
Lemma get_variables_spec self h :
  allocated self h ->
  get_variables self h
  = (seq (length h) (length (_variables self)),
     h ++ map (value h) (_variables self)).
Proof.
  intros Hall. unfold get_variables. apply copy_each_spec.
  apply allocated_variables. exact Hall.
Qed.

(** Assignments to variables that a network does not read leave what it
    computes as it was. *)
Lemma model_after_assignments self updates h x :
  (forall r, In r (_weights self ++ _bias self) -> ~ In r (map fst updates)) ->
  model self (assign_all h updates) x = model self h x.
Proof.
  intros Hapart. apply model_frame. intros r Hr.
  apply value_assign_all_other. apply Hapart. exact Hr.
Qed.

Lemma fst_combine_in (A B : Type) (l : list A) (l' : list B) a :
  In a (map fst (combine l l')) -> In a l.
Proof.
  revert l'. induction l as [| x t IH]; intros [| y u] Hin; cbn in Hin;
    try contradiction.
  destruct Hin as [<- | Hin]; [left; reflexivity | right; eapply IH; exact Hin].
Qed.


Local Open Scope R_scope.

Lemma dense_null_7_16 a act :
  Network._dense_layer [a :: zeros 6] (null 7 16) [zeros 16] act = [repeat (act 0) 16].
Proof. dense_by_computation. Qed.
Lemma dense_null_16_32 a act :
  Network._dense_layer [a :: zeros 15] (null 16 32) [zeros 32] act = [repeat (act 0) 32].
Proof. dense_by_computation. Qed.
Lemma dense_null_16_3 a act :
  Network._dense_layer [a :: zeros 15] (null 16 3) [zeros 3] act = [repeat (act 0) 3].
Proof. dense_by_computation. Qed.

Lemma transform_row_b :
  transform scaler7 [row_b] = map (fun a => a :: zeros 6) [1].
Proof.
  pose proof transform_batch_ab as H.
  change (transform scaler7 batch_ab)
    with [transform_row scaler7 row_a; transform_row scaler7 row_b] in H.
  apply (f_equal (fun l => nth 1 l [])) in H. cbn [map nth] in H.
  change (transform scaler7 [row_b]) with [transform_row scaler7 row_b].
  rewrite H. reflexivity.
Qed.

Lemma transform_row_a :
  transform scaler7 [row_a] = map (fun a => a :: zeros 6) [0].
Proof.
  pose proof transform_batch_ab as H.
  change (transform scaler7 batch_ab)
    with [transform_row scaler7 row_a; transform_row scaler7 row_b] in H.
  apply (f_equal (fun l => nth 0 l [])) in H. cbn [map nth] in H.
  change (transform scaler7 [row_a]) with [transform_row scaler7 row_a].
  rewrite H. reflexivity.
Qed.

Lemma model_carrier_row_b :
  Network.model carrier [row_b]
  = [[0 + (swish 1 - swish 1 / 3); 0 + (0 - swish 1 / 3); 0 + (0 - swish 1 / 3)]].
Proof.
  rewrite model_streams.
  rewrite (@carrier_value [row_b] [1] transform_row_b).
  rewrite (@carrier_advantage [row_b] [1] transform_row_b).
  cbn [map]. rewrite !relu_1.
  rewrite reduce_mean_single. unfold row_mean. cbn [fold_right length].
  replace (INR 3) with 3 by (cbn; lra).
  replace ((swish 1 + (0 + (0 + 0))) / 3) with (swish 1 / 3) by lra.
  reflexivity.
Qed.

Lemma model_carrier_row_a :
  Network.model carrier [row_a] = [[0 + (0 - 0); 0 + (0 - 0); 0 + (0 - 0)]].
Proof.
  rewrite model_streams.
  rewrite (@carrier_value [row_a] [0] transform_row_a).
  rewrite (@carrier_advantage [row_a] [0] transform_row_a).
  cbn [map]. rewrite !relu_0, swish_0.
  rewrite reduce_mean_single. unfold row_mean. cbn [fold_right length].
  replace (INR 3) with 3 by (cbn; lra).
  replace ((0 + (0 + (0 + 0))) / 3) with 0 by lra.
  reflexivity.
Qed.

Lemma model_silent_row_b :
  Network.model silent [row_b] = [[0 + (0 - 0); 0 + (0 - 0); 0 + (0 - 0)]].
Proof.
  unfold Network.model.
  cbn [Network._scaler Network._weights Network._bias silent item nth no_bias].
  rewrite transform_row_b. cbn [map].
  rewrite dense_null_7_16. cbn [repeat]. rewrite !relu_0. fold (zeros 15).
  rewrite dense_null_16_32. cbn [repeat]. rewrite !relu_0. fold (zeros 31).
  rewrite dense_null_32_16. cbn [repeat]. rewrite !relu_0. fold (zeros 15).
  rewrite dense_null_16_1, dense_null_16_3. cbn [repeat]. rewrite !swish_0.
  rewrite reduce_mean_single. unfold row_mean. cbn [fold_right length].
  replace (INR 3) with 3 by (cbn; lra).
  replace ((0 + (0 + (0 + 0))) / 3) with 0 by lra.
  reflexivity.
Qed.

Lemma values_online_object : values online_object store24 = carrier.
Proof. reflexivity. Qed.

Lemma values_target_object : values target_object store24 = silent.
Proof. reflexivity. Qed.

Lemma allocated_online : allocated online_object store24.
Proof.
  unfold allocated. apply Forall_forall. intros r Hr. cbn in Hr.
  repeat (destruct Hr as [<- | Hr]; [cbn; lia |]). contradiction.
Qed.


End NetworkObjectFacts.

(** ** Claims on the copy of the parameters *)

Module SyncClaims.

Import Network NetworkObject Examples NetworkFacts NetworkObjectFacts.
Local Open Scope R_scope.

(** C2, at two networks in one store: after
    [target.update_variables(online.get_variables())] the list [_variables]
    of the target holds copies of the values of the online network, but
    [model] reads [_weights] and [_bias], which the call leaves alone; the
    target computes what it computed before, which is not what the online
    network computes. *)
Theorem update_variables_does_not_reach_model :
  let vs_h := get_variables online_object store24 in
  let target' := update_variables target_object (fst vs_h) in
  map (value (snd vs_h)) (NetworkObject._variables target')
  = map (value store24) (NetworkObject._variables online_object)
  /\ model target' (snd vs_h) [row_b] = model target_object store24 [row_b]
  /\ model target' (snd vs_h) [row_b] <> model online_object store24 [row_b].
Proof.
  intros vs_h target'. subst vs_h target'.
  rewrite (@get_variables_spec online_object store24 allocated_online). cbn [fst snd].
  split; [reflexivity |].
  assert (Hsame : model (update_variables target_object
                           (seq (length store24)
                                (length (NetworkObject._variables online_object))))
                        (store24 ++ map (value store24)
                                        (NetworkObject._variables online_object))
                        [row_b]
                  = model target_object store24 [row_b]) by reflexivity.
  split; [exact Hsame |].
  rewrite Hsame. unfold model.
  rewrite values_online_object, values_target_object.
  rewrite model_carrier_row_b, model_silent_row_b.
  intros Heq. injection Heq as Heq _. pose proof swish_1_pos. lra.
Qed.

End SyncClaims.

(** ** The training update *)

Module TrainingFacts.

Import Network Training Examples NetworkFacts NetworkObjectFacts.
Local Open Scope R_scope.

Ltac min_max :=
  unfold Rmin, Rmax; repeat (destruct (Rle_dec _ _)); lra.

Lemma partial_fit_states :
  partial_fit scaler7 [row_a; row_a] = scaler7.
Proof.
  unfold partial_fit, scaler7, widen, row_a.
  cbn [fold_left data_min_ data_max_ map combine fst snd].
  apply f_equal2; entries ltac:(min_max).
Qed.

Lemma partial_fit_next_states :
  partial_fit scaler7 [row_a; row_b] = scaler7.
Proof.
  unfold partial_fit, scaler7, widen, row_a, row_b.
  cbn [fold_left data_min_ data_max_ map combine fst snd].
  apply f_equal2; entries ltac:(min_max).
Qed.

Lemma argmax_flat a : argmax [a; a; a] = 0%nat.
Proof.
  unfold argmax. cbn [argmax_from].
  destruct (Rlt_dec a a) as [H | _]; [lra | reflexivity].
Qed.

Lemma argmax_first a b : b < a -> argmax [a; b; b] = 0%nat.
Proof.
  intros Hlt. unfold argmax. cbn [argmax_from].
  destruct (Rlt_dec a b) as [H | _]; [lra | reflexivity].
Qed.

Lemma train_two_samples :
  _train_network (9 / 10) 3 carrier carrier [sample_a; sample_b]
  = Ok (mkUpdate carrier carrier [row_a; row_a]
          [0 + 9 / 10 * (0 + (0 - swish 1 / 6));
           0 + 9 / 10 * (0 + (swish 1 - swish 1 / 6))]
          [[0; 0; 1]; [1; 0; 0]]).
Proof.
  unfold _train_network, scaler_partial_fit.
  cbn [map state next_state action reward sample_a sample_b
       Network._weights Network._bias Network._scaler carrier].
  rewrite partial_fit_states, partial_fit_next_states.
  change (mkNetwork [corner 7 16; corner 16 32; null 32 16; null 16 1;
                     corner 32 16; corner 16 3] no_bias scaler7) with carrier.
  change [row_a; row_b] with batch_ab.
  rewrite model_carrier_batch_ab.
  cbn [one_hot Nat.ltb Nat.leb bind eye_row map seq Nat.eqb].
  cbn [np_squeeze forallb is_single andb np_argmax map].
  rewrite argmax_flat.
  rewrite argmax_first by (pose proof swish_1_pos; lra).
  reflexivity.
Qed.


End TrainingFacts.

(** ** Claims on the training update *)

Module TrainingClaims.

Import Network Training Examples NetworkFacts NetworkObjectFacts TrainingFacts.
Local Open Scope R_scope.

(** C3, at a batch of two transitions: the target handed to
    [update_weights] for a transition is its reward plus the discount times
    the entry, of the transition's row of the target network's output on the
    whole batch, at the best action of its row of the online network's
    output on the whole batch.  That output is centred with the mean of the
    batch, so the target of the first transition, [9/10 * (- swish 1 / 6)],
    is not the one computed from forward passes on its next state alone,
    which is [0]. *)
Theorem batch_target_is_not_the_single_forward_target :
  exists u,
    _train_network (9 / 10) 3 carrier carrier [sample_a; sample_b] = Ok u
    /\ targets u
       = map (batch_dqn_target (9 / 10) (online_network u) (target_network u)
                               [sample_a; sample_b])
             [0%nat; 1%nat]
    /\ nth 0 (targets u) 0 = 9 / 10 * (- (swish 1 / 6))
    /\ double_dqn_target (9 / 10) (online_network u) (target_network u) sample_a
       = 0
    /\ nth 0 (targets u) 0
       <> double_dqn_target (9 / 10) (online_network u) (target_network u)
                            sample_a.
Proof.
  eexists. split; [exact train_two_samples |].
  cbn [targets online_network target_network].
  pose proof swish_1_pos as Hpos.
  assert (Hsingle : double_dqn_target (9 / 10) carrier carrier sample_a = 0).
  { unfold double_dqn_target. cbn [next_state reward sample_a].
    rewrite model_carrier_row_a. cbn [hd]. rewrite argmax_flat. cbn [nth]. lra. }
  assert (Hfirst : nth 0 [0 + 9 / 10 * (0 + (0 - swish 1 / 6));
                          0 + 9 / 10 * (0 + (swish 1 - swish 1 / 6))] 0
                   = 9 / 10 * (- (swish 1 / 6))).
  { cbn [nth]. lra. }
  split; [| split; [exact Hfirst | split; [exact Hsingle |]]].
  - unfold batch_dqn_target.
    cbn [map next_state reward sample_a sample_b].
    change [row_a; row_b] with batch_ab.
    rewrite model_carrier_batch_ab. cbn [nth].
    rewrite argmax_flat.
    rewrite argmax_first by lra.
    reflexivity.
  - rewrite Hfirst, Hsingle. lra.
Qed.

End TrainingClaims.

(** ** The replay memory: occupancy and sampling *)

Module MemoryExtras.

Import Memory MemoryFacts.


Lemma collect_nth_error (item : Type) (d : deque item) idx res :
  collect d idx = Ok res ->
  Forall2 (fun i x => nth_error (items d) i = Some x) idx res.
Proof.
  revert res. induction idx as [| i rest IH]; intros res H.
  - cbn in H. injection H as <-. constructor.
  - cbn [collect] in H. unfold getitem in H.
    destruct (nth_error (items d) i) as [x |] eqn:Hx; [| discriminate].
    cbn [bind] in H.
    destruct (collect d rest) as [xs |] eqn:Hrest; [| discriminate].
    cbn [bind] in H. injection H as <-.
    constructor; [exact Hx | apply IH; reflexivity].
Qed.

Lemma Forall2_nth_error_map (item : Type) (l : list item) idx res :
  Forall2 (fun i x => nth_error l i = Some x) idx res ->
  map Some res = map (nth_error l) idx.
Proof.
  induction 1 as [| i x idx res Hx _ IH]; [reflexivity |].
  cbn [map]. rewrite Hx, IH. reflexivity.
Qed.

Lemma nth_error_seq (item : Type) (l : list item) :
  map (nth_error l) (seq 0 (length l)) = map Some l.
Proof.
  induction l as [| x t IH]; [reflexivity |].
  cbn [length seq map nth_error]. f_equal.
  rewrite <- seq_shift, map_map. cbn [nth_error]. exact IH.
Qed.

Lemma map_Some_inj (item : Type) (a b : list item) :
  map Some a = map Some b -> a = b.
Proof.
  revert b. induction a as [| x t IH]; intros [| y u] H; try discriminate.
  - reflexivity.
  - cbn in H. injection H as -> H. f_equal. apply IH. exact H.
Qed.

Lemma map_Some_perm (item : Type) (a b : list item) :
  Permutation (map Some a) (map Some b) -> Permutation a b.
Proof.
  intros H. apply Permutation_map_inv in H. destruct H as [c [Heq Hperm]].
  apply map_Some_inj in Heq. subst c. symmetry. exact Hperm.
Qed.



End MemoryExtras.

(** ** The replay memory along a training run *)

Module ScheduleExtras.

Import Memory MemoryFacts Schedule.

Section WithItem.

Variable item : Type.

Implicit Types (m : Memory item) (c : Dql).

Lemma add_len m x :
  length (items (_memory m)) <= maxlen (_memory m) ->
  len (add m x) = Nat.min (len m + 1) (maxlen (_memory m)).
Proof.
  intros Hle. unfold len. cbn [add _memory].
  rewrite deque_append_items by exact Hle.
  rewrite length_skipn, length_app. cbn [length]. lia.
Qed.

Lemma sample_returns m draw k :
  In draw (Shuffle.shuffles (len m)) -> k <= len m ->
  exists res, sample m draw k = Ok res.
Proof.
  intros Hdraw Hk. apply ShuffleFacts.shuffles_spec in Hdraw.
  assert (Hrange : Forall (fun i => i < length (items (_memory m))) (firstn k draw)).
  { apply Forall_forall. intros i Hi. apply In_firstn in Hi.
    apply Permutation_sym in Hdraw.
    apply (Permutation_in _ Hdraw) in Hi. apply in_seq in Hi.
    unfold len in Hi. lia. }
  destruct (collect_in_range (_memory m) Hrange) as [res [Hres _]].
  exists res. unfold sample, random_choice.
  destruct (Nat.ltb_spec (len m) k); [lia | exact Hres].
Qed.

Lemma sample_undersized m draw k :
  len m < k -> sample m draw k = Raise ValueError.
Proof.
  intros Hk. unfold sample, random_choice.
  destruct (Nat.ltb_spec (len m) k); [reflexivity | lia].
Qed.

Lemma substeps_return c run : forall m t,
  memory_batch_size c <= replay_start c ->
  memory_batch_size c <= maxlen (_memory m) ->
  len m = Nat.min t (maxlen (_memory m)) ->
  well_drawn (maxlen (_memory m)) t run ->
  exists m',
    substeps c m t run = Ok (m', t + length run)
    /\ len m' = Nat.min (t + length run) (maxlen (_memory m))
    /\ maxlen (_memory m') = maxlen (_memory m).
Proof.
  induction run as [| [x draw] rest IH]; intros m t Hstart Hcap Hlen Hdrawn.
  - exists m. cbn [length]. rewrite Nat.add_0_r.
    repeat split; try reflexivity. exact Hlen.
  - cbn [well_drawn] in Hdrawn. destruct Hdrawn as [Hdraw Hrest].
    assert (Hbound : length (items (_memory m)) <= maxlen (_memory m)).
    { unfold len in Hlen. lia. }
    assert (Hlen' : len (add m x) = Nat.min (t + 1) (maxlen (_memory m))).
    { rewrite add_len by exact Hbound. lia. }
    assert (Hafter : exists batch,
               substep c m t x draw = Ok (add m x, t + 1, batch)).
    { unfold substep. destruct (Nat.ltb_spec (replay_start c) (t + 1)) as [Hgo | Hwait].
      - rewrite <- Hlen' in Hdraw.
        assert (Hk : memory_batch_size c <= len (add m x)) by lia.
        destruct (@sample_returns (add m x) draw (memory_batch_size c) Hdraw Hk)
          as [res Hres].
        rewrite Hres. cbn [bind]. eexists. reflexivity.
      - eexists. reflexivity. }
    destruct Hafter as [batch Hafter].
    cbn [substeps]. rewrite Hafter. cbn [bind fst snd].
    destruct (IH (add m x) (t + 1)) as [m' [Hrun [Hlenm' Hmax]]];
      try assumption.
    + exists m'. cbn [length].
      replace (t + S (length rest)) with (t + 1 + length rest) by lia.
      repeat split; assumption.
Qed.

(** Before the replay starts nothing is sampled; the first sample is asked
    of a memory that holds at most its capacity. *)
Lemma substeps_undersized c run : forall m t,
  maxlen (_memory m) < memory_batch_size c ->
  length (items (_memory m)) <= maxlen (_memory m) ->
  t <= replay_start c ->
  replay_start c < t + length run ->
  substeps c m t run = Raise ValueError.
Proof.
  induction run as [| [x draw] rest IH]; intros m t Hcap Hbound Ht Hlong.
  - cbn [length] in Hlong. lia.
  - cbn [substeps]. unfold substep.
    assert (Hbound' : length (items (_memory (add m x))) <= maxlen (_memory m)).
    { cbn [add _memory]. apply deque_append_bounded. exact Hbound. }
    destruct (Nat.ltb_spec (replay_start c) (t + 1)) as [Hgo | Hwait].
    + rewrite sample_undersized; [reflexivity |]. unfold len. lia.
    + cbn [bind fst snd]. apply IH.
      * exact Hcap.
      * exact Hbound'.
      * lia.
      * cbn [length] in Hlong. lia.
Qed.

End WithItem.





End ScheduleExtras.

(** ** The reward: the branches, the pairing of the readings, the targets *)

Module RewardExtras.

Import Configuration Environment RewardFacts.
Local Open Scope Q_scope.

Lemma ActionCode_eqb_eq a b : ActionCode_eqb a b = true <-> a = b.
Proof. destruct a, b; cbn; split; intros H; try reflexivity; discriminate. Qed.


Lemma Qltb_true x y : x < y -> Qltb x y = true.
Proof.
  intros H. unfold Qltb. apply negb_true_iff.
  destruct (Qle_bool y x) eqn:Hle; [| reflexivity].
  apply Qle_bool_iff in Hle. exfalso. apply (Qlt_not_le _ _ H Hle).
Qed.

Lemma Qltb_false x y : y <= x -> Qltb x y = false.
Proof.
  intros H. unfold Qltb. apply negb_false_iff. apply Qle_bool_iff. exact H.
Qed.



(** A step started from another reward ends as much higher, or raises the
    same error. *)
Lemma reward_step_shift self action last_action p c acc acc' d :
  acc == acc' + d ->
  match reward_step self action last_action p c acc' with
  | Ok r' =>
      exists r, reward_step self action last_action p c acc = Ok r
                /\ r == r' + d
  | Raise e => reward_step self action last_action p c acc = Raise e
  end.
Proof.
  intros Hacc. unfold reward_step.
  destruct (resolve_target self (bus c)) as [vt | e]; [| reflexivity].
  destruct (rounded_mean p) as [vb | e]; [| reflexivity].
  destruct (rounded_mean c) as [va | e]; [| reflexivity].
  cbn [bind]. eexists. split; [reflexivity |].
  destruct (Qltb (distance vt vb) (distance vt va));
    [| destruct (Qltb (distance vt va) (distance vt vb))];
    destruct (out_of_limits (_config self) vt va);
    try destruct action;
    destruct (_check_action_undone last_action _);
    rewrite Hacc; ring.
Qed.

Lemma reward_loop_shift self action last_action pairs : forall acc acc' d,
  acc == acc' + d ->
  match reward_loop self action last_action pairs acc' with
  | Ok r' =>
      exists r, reward_loop self action last_action pairs acc = Ok r
                /\ r == r' + d
  | Raise e => reward_loop self action last_action pairs acc = Raise e
  end.
Proof.
  induction pairs as [| [p c] rest IH]; intros acc acc' d Hacc.
  - cbn [reward_loop]. exists acc. split; [reflexivity | exact Hacc].
  - cbn [reward_loop].
    pose proof (@reward_step_shift self action last_action p c acc acc' d Hacc)
      as Hstep.
    destruct (reward_step self action last_action p c acc') as [r' | e].
    + destruct Hstep as [r [Hr Hrel]]. rewrite Hr. cbn [bind].
      apply IH. exact Hrel.
    + rewrite Hstep. reflexivity.
Qed.

Lemma reward_loop_app self action last_action pairs1 pairs2 acc :
  reward_loop self action last_action (pairs1 ++ pairs2) acc
  = bind (reward_loop self action last_action pairs1 acc)
         (reward_loop self action last_action pairs2).
Proof.
  revert acc. induction pairs1 as [| [p c] rest IH]; intros acc; [reflexivity |].
  cbn [app reward_loop].
  destruct (reward_step self action last_action p c acc) as [r | e];
    [| reflexivity].
  cbn [bind]. apply IH.
Qed.

Lemma combine_append (A B : Type) (a1 a2 : list A) (b1 b2 : list B) :
  length a1 = length b1 ->
  combine (a1 ++ a2) (b1 ++ b2) = combine a1 b1 ++ combine a2 b2.
Proof.
  revert b1. induction a1 as [| x t IH]; intros [| y u] Hlen;
    try discriminate; [reflexivity |].
  cbn [app combine]. f_equal. apply IH. cbn in Hlen. lia.
Qed.








End RewardExtras.

(** ** The pool of actions *)

Module CatalogExtras.

Import Environment Catalog.

Section Pairs.

Variable T : Type.
Variable get_name : T -> string.
Variable op : string.
Variables up down : ActionCode.
Hypothesis up_down : up <> down.

Lemma in_listing a l :
  In a (listing op get_name [up; down] l) <->
  exists e, In e l /\ (a = (op, get_name e, up) \/ a = (op, get_name e, down)).
Proof.
  unfold listing. rewrite in_flat_map. split.
  - intros [e [He Ha]]. exists e. split; [exact He |].
    cbn in Ha. destruct Ha as [<- | [<- | []]]; [left | right]; reflexivity.
  - intros [e [He Ha]]. exists e. split; [exact He |].
    cbn. destruct Ha as [-> | ->]; [left | right; left]; reflexivity.
Qed.

Lemma length_listing l :
  length (listing op get_name [up; down] l) = 2 * length l.
Proof.
  induction l as [| e t IH]; [reflexivity |].
  change (listing op get_name [up; down] (e :: t))
    with ((op, get_name e, up) :: (op, get_name e, down)
          :: listing op get_name [up; down] t).
  cbn [length]. rewrite IH. lia.
Qed.

Lemma NoDup_listing l :
  NoDup (map get_name l) -> NoDup (listing op get_name [up; down] l).
Proof.
  induction l as [| e t IH]; intros Hnd; [constructor |].
  cbn [map] in Hnd. inversion Hnd as [| ? ? Hnotin Hnd']; subst.
  assert (Hfresh : forall c, ~ In (op, get_name e, c)
                               (listing op get_name [up; down] t)).
  { intros c Hin. apply in_listing in Hin.
    destruct Hin as [e' [He' Heq]]. apply Hnotin.
    assert (get_name e = get_name e') as ->
        by (destruct Heq as [Heq | Heq]; injection Heq as Heq _; exact Heq).
    apply in_map. exact He'. }
  change (listing op get_name [up; down] (e :: t))
    with ((op, get_name e, up) :: (op, get_name e, down)
          :: listing op get_name [up; down] t).
  constructor.
  - intros [Heq | Hin].
    + injection Heq as Heq. apply up_down. symmetry. exact Heq.
    + exact (Hfresh up Hin).
  - constructor; [apply Hfresh | apply IH; exact Hnd'].
Qed.

End Pairs.




End CatalogExtras.

(** ** The schedule of epsilon *)

Module EpsilonExtras.

Import Environment Schedule.
Local Open Scope Q_scope.

Lemma py_max_ge_l a b : a <= py_max a b.
Proof.
  unfold py_max, Qltb. destruct (Qle_bool b a) eqn:Hle; cbn [negb].
  - apply Qle_refl.
  - destruct (Qlt_le_dec a b) as [Hlt | Hge].
    + apply Qlt_le_weak. exact Hlt.
    + apply Qle_bool_iff in Hge. congruence.
Qed.

Lemma py_max_ge_r a b : b <= py_max a b.
Proof.
  unfold py_max, Qltb. destruct (Qle_bool b a) eqn:Hle; cbn [negb].
  - apply Qle_bool_iff. exact Hle.
  - apply Qle_refl.
Qed.

Lemma py_max_lub a b c : a <= c -> b <= c -> py_max a b <= c.
Proof. intros Ha Hb. unfold py_max. destruct (Qltb a b); assumption. Qed.

Lemma py_max_mono a b b' : b <= b' -> py_max a b <= py_max a b'.
Proof.
  intros Hb. apply py_max_lub.
  - apply py_max_ge_l.
  - apply Qle_trans with b'; [exact Hb | apply py_max_ge_r].
Qed.

Lemma py_max_same a b b' : b == b' -> py_max a b == py_max a b'.
Proof.
  intros Hb. apply Qle_antisym; apply py_max_mono; rewrite Hb; apply Qle_refl.
Qed.

Lemma decay_mono M e e' :
  (0 < M)%Z -> (e <= e')%Z ->
  inject_Z (M + 1 - e') / inject_Z M <= inject_Z (M + 1 - e) / inject_Z M.
Proof.
  intros HM He. unfold Qdiv. apply Qmult_le_compat_r.
  - rewrite <- Zle_Qle. lia.
  - apply Qinv_le_0_compat. replace 0 with (inject_Z 0) by reflexivity.
    rewrite <- Zle_Qle. lia.
Qed.

Lemma Qmult_le_left x y z : 0 <= z -> x <= y -> z * x <= z * y.
Proof.
  intros Hz Hxy. rewrite (Qmult_comm z x), (Qmult_comm z y).
  apply Qmult_le_compat_r; assumption.
Qed.

Lemma get_epsilon_value eps M e :
  (0 < M)%Z ->
  get_epsilon eps M e
  = Some (py_max (fst eps) (snd eps * (inject_Z (M + 1 - e) / inject_Z M))).
Proof.
  intros HM. unfold get_epsilon.
  destruct (Z.eqb_spec M 0); [lia | reflexivity].
Qed.



Example epsilon_first_episode :
  exists x, get_epsilon epsilon_init 1000 1 = Some x /\ x == 1.
Proof. eexists. split; [reflexivity | reflexivity]. Qed.

Example epsilon_last_episode :
  exists x, get_epsilon epsilon_init 1000 1000 = Some x /\ x == 2 # 10.
Proof. eexists. split; [reflexivity | reflexivity]. Qed.

End EpsilonExtras.

(** ** The greedy choice *)

Module SelectionExtras.

Import Network Training NetworkFacts.
Local Open Scope R_scope.

(** The scan of [argmax], from a best value found at [best_i] among the
    [i] entries already seen. *)
Lemma argmax_from_spec rest : forall pre best best_i,
  (best_i < length pre)%nat ->
  nth best_i pre 0 = best ->
  (forall j, (j < length pre)%nat -> nth j pre 0 <= best) ->
  (forall j, (j < best_i)%nat -> nth j pre 0 < best) ->
  let k := argmax_from best best_i (length pre) rest in
  (k < length (pre ++ rest))%nat
  /\ (forall j, (j < length (pre ++ rest))%nat ->
                nth j (pre ++ rest) 0 <= nth k (pre ++ rest) 0)
  /\ (forall j, (j < k)%nat -> nth j (pre ++ rest) 0 < nth k (pre ++ rest) 0).
Proof.
  induction rest as [| x rest IH]; intros pre best best_i Hi Hbest Hall Hfirst.
  - cbn [argmax_from]. rewrite app_nil_r. rewrite Hbest.
    repeat split; assumption.
  - cbn [argmax_from].
    replace (pre ++ x :: rest) with ((pre ++ [x]) ++ rest)
      by (rewrite <- app_assoc; reflexivity).
    replace (S (length pre)) with (length (pre ++ [x]))
      by (rewrite length_app; cbn; lia).
    assert (Hnew : nth (length pre) (pre ++ [x]) 0 = x).
    { rewrite app_nth2, Nat.sub_diag by lia. reflexivity. }
    assert (Hold : forall j, (j < length pre)%nat ->
                             nth j (pre ++ [x]) 0 = nth j pre 0).
    { intros j Hj. apply app_nth1. exact Hj. }
    assert (Hsplit : forall j, (j < length (pre ++ [x]))%nat ->
                               (j < length pre)%nat \/ j = length pre).
    { intros j Hj. rewrite length_app in Hj. cbn in Hj. lia. }
    destruct (Rlt_dec best x) as [Hlt | Hge].
    + apply IH.
      * rewrite length_app. cbn. lia.
      * exact Hnew.
      * intros j Hj. destruct (Hsplit j Hj) as [Hj' | ->].
        -- rewrite Hold by exact Hj'. specialize (Hall j Hj'). lra.
        -- rewrite Hnew. lra.
      * intros j Hj. rewrite Hold by exact Hj. specialize (Hall j Hj). lra.
    + apply IH.
      * rewrite length_app. cbn. lia.
      * rewrite Hold by exact Hi. exact Hbest.
      * intros j Hj. destruct (Hsplit j Hj) as [Hj' | ->].
        -- rewrite Hold by exact Hj'. apply Hall. exact Hj'.
        -- rewrite Hnew. lra.
      * intros j Hj. rewrite Hold by lia. apply Hfirst. exact Hj.
Qed.

Lemma argmax_spec (l : list R) :
  l <> [] ->
  (argmax l < length l)%nat
  /\ (forall j, (j < length l)%nat -> nth j l 0 <= nth (argmax l) l 0)
  /\ (forall j, (j < argmax l)%nat -> nth j l 0 < nth (argmax l) l 0).
Proof.
  destruct l as [| x rest]; [contradiction |]. intros _.
  apply (@argmax_from_spec rest [x] x 0%nat).
  - cbn. lia.
  - reflexivity.
  - intros j Hj. cbn in Hj. replace j with 0%nat by lia. cbn. lra.
  - intros j Hj. lia.
Qed.

(** The scan is the same after a change of the entries that keeps their
    order. *)
Lemma argmax_from_increasing (f : R -> R) rest : forall best best_i i,
  (forall a b, a < b <-> f a < f b) ->
  argmax_from (f best) best_i i (map f rest) = argmax_from best best_i i rest.
Proof.
  induction rest as [| x rest IH]; intros best best_i i Hf; [reflexivity |].
  cbn [map argmax_from].
  destruct (Rlt_dec (f best) (f x)) as [H | H], (Rlt_dec best x) as [H' | H'].
  - apply IH. exact Hf.
  - exfalso. apply H'. apply (proj2 (Hf best x)). exact H.
  - exfalso. apply H. apply (proj1 (Hf best x)). exact H'.
  - apply IH. exact Hf.
Qed.

Lemma argmax_shifted (v m : R) (l : list R) :
  argmax (map (fun a => v + (a - m)) l) = argmax l.
Proof.
  destruct l as [| x rest]; [reflexivity |].
  cbn [map argmax].
  apply (argmax_from_increasing (fun a => v + (a - m))).
  intros a b. split; intros H; lra.
Qed.

(** The streams are computed row by row. *)
Lemma value_stream_rows self X :
  value_stream self X = map (fun row => hd [] (value_stream self [row])) X.
Proof.
  induction X as [| r X IH]; [reflexivity |].
  cbn [map]. rewrite <- IH. reflexivity.
Qed.

Lemma advantage_stream_rows self X :
  advantage_stream self X = map (fun row => hd [] (advantage_stream self [row])) X.
Proof.
  induction X as [| r X IH]; [reflexivity |].
  cbn [map]. rewrite <- IH. reflexivity.
Qed.

Lemma length_value_stream self X : length (value_stream self X) = length X.
Proof. rewrite value_stream_rows. apply length_map. Qed.

Lemma length_advantage_stream self X : length (advantage_stream self X) = length X.
Proof. rewrite advantage_stream_rows. apply length_map. Qed.

Lemma length_model self X : length (model self X) = length X.
Proof.
  rewrite model_streams. unfold combine_streams.
  rewrite length_map, length_combine, length_value_stream, length_advantage_stream.
  lia.
Qed.

(** Row [i] of the output. *)
Lemma model_row self X i :
  (i < length X)%nat ->
  nth i (model self X) []
  = map (fun a => hd 0 (nth i (value_stream self X) [])
                  + (a - reduce_mean (advantage_stream self X)))
        (nth i (advantage_stream self X) []).
Proof.
  intros Hi. rewrite model_streams. unfold combine_streams.
  set (V := value_stream self X). set (A := advantage_stream self X).
  set (m := reduce_mean A).
  set (F := fun p : list R * list R => map (fun a => hd 0 (fst p) + (a - m)) (snd p)).
  change (nth i (map F (combine V A)) []) with (nth i (map F (combine V A)) (F ([], []))).
  rewrite map_nth, combine_nth
    by (subst V A; rewrite length_value_stream, length_advantage_stream; reflexivity).
  reflexivity.
Qed.

Lemma nth_0_hd (A : Type) (l : list A) d : nth 0 l d = hd d l.
Proof. destruct l; reflexivity. Qed.

Lemma advantage_row self X i :
  (i < length X)%nat ->
  nth i (advantage_stream self X) []
  = hd [] (advantage_stream self [nth i X []]).
Proof.
  intros Hi. rewrite advantage_stream_rows.
  rewrite (nth_indep _ [] (hd [] (advantage_stream self [[]])))
    by (rewrite length_map; exact Hi).
  apply (map_nth (fun row => hd [] (advantage_stream self [row]))).
Qed.

Lemma argmax_model_row self X i :
  (i < length X)%nat ->
  argmax (nth i (model self X) [])
  = argmax (hd [] (advantage_stream self [nth i X []])).
Proof.
  intros Hi. rewrite model_row by exact Hi.
  rewrite argmax_shifted. rewrite advantage_row by exact Hi. reflexivity.
Qed.





End SelectionExtras.

(** ** What the forward pass centres *)

Module CentringExtras.

Import Network NetworkFacts.
Local Open Scope R_scope.

Lemma sum_all_shifted (m : R) (A : tensor) :
  sum_all (map (map (fun e => e - m)) A) = sum_all A - INR (count_all A) * m.
Proof.
  unfold sum_all, count_all. induction A as [| a A IH].
  - cbn. lra.
  - cbn [map fold_right]. rewrite IH, sum_shifted, plus_INR. lra.
Qed.

Lemma count_all_shifted (m : R) (A : tensor) :
  count_all (map (map (fun e => e - m)) A) = count_all A.
Proof.
  unfold count_all. induction A as [| a A IH]; [reflexivity |].
  cbn [map fold_right]. rewrite IH, length_map. reflexivity.
Qed.

(** [Q - V], row by row. *)
Lemma minus_value_rows (V A : tensor) (m : R) :
  length V = length A ->
  map (fun p => minus_value (fst p) (snd p))
      (combine (combine_streams V A m) V)
  = map (map (fun e => e - m)) A.
Proof.
  unfold combine_streams. revert A.
  induction V as [| v V IH]; intros [| a A] Hlen; try discriminate;
    [reflexivity |].
  cbn [combine map fst snd]. rewrite minus_value_of_combined.
  f_equal. apply IH. cbn in Hlen. lia.
Qed.



Lemma advantage_carrier_batch_ab :
  advantage_stream Examples.carrier Examples.batch_ab
  = [[0; 0; 0]; [swish 1; 0; 0]].
Proof.
  rewrite (@carrier_advantage Examples.batch_ab [0; 1] transform_batch_ab).
  cbn [map]. rewrite !relu_0, !relu_1, swish_0. reflexivity.
Qed.



End CentringExtras.

(** ** The targets of the training update *)

Module TrainingExtras.

Import Network Training NetworkFacts.
Local Open Scope R_scope.

Lemma model_single_row self row : exists q, model self [row] = [q].
Proof. eexists. reflexivity. Qed.

Lemma squeeze_single_row (q : list R) values :
  values = np_squeeze [q] ->
  forall best, exists e, index_rows values best = Raise e.
Proof.
  intros -> best. destruct q as [| a [| b q]]; cbn; eexists; reflexivity.
Qed.


Lemma take_each_spec rows : forall cols l,
  take_each rows cols = Ok l ->
  length cols = length rows
  /\ l = map (fun i => nth (nth i cols 0%nat) (nth i rows []) 0)
             (seq 0 (length rows)).
Proof.
  induction rows as [| row rows IH]; intros [| j cols] l H; try discriminate.
  - cbn in H. injection H as <-. split; reflexivity.
  - cbn [take_each] in H. unfold getitem in H.
    destruct (nth_error row j) as [x |] eqn:Hx; [| discriminate].
    cbn [bind] in H.
    destruct (take_each rows cols) as [xs |] eqn:Hrest; [| discriminate].
    cbn [bind] in H. injection H as <-.
    destruct (IH cols xs Hrest) as [Hlen Hxs].
    split; [cbn; lia |].
    cbn [length seq map nth]. f_equal.
    + symmetry. apply nth_error_nth. exact Hx.
    + rewrite Hxs, <- seq_shift, map_map. reflexivity.
Qed.

Lemma list_as_nth (l : list R) :
  l = map (fun i => nth i l 0) (seq 0 (length l)).
Proof.
  induction l as [| x t IH]; [reflexivity |].
  cbn [length seq map nth]. f_equal.
  rewrite <- seq_shift, map_map. exact IH.
Qed.

Lemma map_combine_seq (f g : nat -> R) (h : R * R -> R) n :
  map h (combine (map f (seq 0 n)) (map g (seq 0 n)))
  = map (fun i => h (f i, g i)) (seq 0 n).
Proof.
  generalize 0%nat as k. induction n as [| n IH]; intros k; [reflexivity |].
  cbn [seq map combine]. f_equal. apply IH.
Qed.

(** A tensor with two rows or more and two columns or more is left as it
    is by [np.squeeze]. *)
Lemma squeeze_matrix (a : tensor) :
  (2 <= length a)%nat ->
  (forall row, In row a -> (2 <= length row)%nat) ->
  np_squeeze a = Arr2 a.
Proof.
  intros Hrows Hcols.
  destruct a as [| r1 [| r2 a]]; cbn in Hrows; try lia.
  assert (H1 : (2 <= length r1)%nat) by (apply Hcols; left; reflexivity).
  destruct r1 as [| x [| y r1]]; cbn in H1; try lia.
  reflexivity.
Qed.

Lemma one_hot_total n actions :
  Forall (fun a => (a < n)%nat) actions ->
  one_hot n actions = Ok (map (eye_row n) actions).
Proof.
  induction 1 as [| a rest Ha _ IH]; [reflexivity |].
  cbn [one_hot map]. destruct (Nat.ltb_spec a n); [| lia].
  rewrite IH. reflexivity.
Qed.

Lemma take_each_total rows : forall cols,
  Forall2 (fun row j => (j < length row)%nat) rows cols ->
  exists l, take_each rows cols = Ok l.
Proof.
  induction rows as [| row rows IH]; intros cols H; inversion H; subst.
  - exists []. reflexivity.
  - match goal with
    | Hj : (_ < length row)%nat, Hrest : Forall2 _ rows _ |- _ =>
        destruct (IH _ Hrest) as [xs Hxs];
        destruct (nth_error row y) as [x |] eqn:Hx;
        [ exists (x :: xs); cbn [take_each]; unfold getitem; rewrite Hx;
          cbn [bind]; rewrite Hxs; reflexivity
        | apply nth_error_None in Hx; lia ]
    end.
Qed.

Lemma best_actions_in_range n (q_online q_target : tensor) :
  (1 <= n)%nat ->
  length q_online = length q_target ->
  Forall (fun row => length row = n) q_online ->
  Forall (fun row => length row = n) q_target ->
  Forall2 (fun row j => (j < length row)%nat) q_target (map argmax q_online).
Proof.
  intros Hn. revert q_target.
  induction q_online as [| a q IH]; intros [| b q'] Hlen Ho Ht;
    try discriminate; [constructor |].
  inversion Ho; subst. inversion Ht; subst. cbn [map]. constructor.
  - assert (Ha : a <> []) by (intros ->; cbn in *; lia).
    destruct (SelectionExtras.argmax_spec Ha) as [Hlt _]. lia.
  - apply IH; [cbn in Hlen; lia | assumption | assumption].
Qed.



Lemma fitted_carrier :
  scaler_partial_fit
    (fst (scaler_partial_fit Examples.carrier Examples.carrier
            (map state [Examples.sample_a; Examples.sample_b])))
    (snd (scaler_partial_fit Examples.carrier Examples.carrier
            (map state [Examples.sample_a; Examples.sample_b])))
    (map next_state [Examples.sample_a; Examples.sample_b])
  = (Examples.carrier, Examples.carrier).
Proof.
  unfold scaler_partial_fit.
  cbn [map state next_state Examples.sample_a Examples.sample_b fst snd
       _weights _bias _scaler Examples.carrier].
  rewrite TrainingFacts.partial_fit_states, TrainingFacts.partial_fit_next_states.
  reflexivity.
Qed.


End TrainingExtras.

(** ** Copies of the variables of a network *)

Module CopyExtras.

Import Network NetworkObject NetworkObjectFacts.

Lemma in_seq_fresh (h : store) k r : In r (seq (length h) k) -> length h <= r.
Proof. intros H. apply in_seq in H. lia. Qed.

Lemma map_value_fresh (h : store) (vals : list tensor) :
  map (value (h ++ vals)) (seq (length h) (length vals)) = vals.
Proof.
  revert h. induction vals as [| v vals IH]; intros h; [reflexivity |].
  cbn [length seq map]. f_equal.
  - unfold value. rewrite app_nth2, Nat.sub_diag by lia. reflexivity.
  - replace (h ++ v :: vals) with ((h ++ [v]) ++ vals)
      by (rewrite <- app_assoc; reflexivity).
    replace (S (length h)) with (length (h ++ [v]))
      by (rewrite length_app; cbn; lia).
    apply IH.
Qed.


Import Copying.

Lemma extends_refl h : extends h h.
Proof. exists []. rewrite app_nil_r. reflexivity. Qed.

Lemma extends_trans h0 h1 h2 : extends h0 h1 -> extends h1 h2 -> extends h0 h2.
Proof.
  intros [a ->] [b ->]. exists (a ++ b). rewrite app_assoc. reflexivity.
Qed.

Lemma extends_length h0 h : extends h0 h -> length h0 <= length h.
Proof. intros [a ->]. rewrite length_app. lia. Qed.

Lemma extends_value h0 h r : extends h0 h -> r < length h0 -> value h r = value h0 r.
Proof. intros [a ->] Hr. apply value_app. exact Hr. Qed.

Lemma memo_sound_extends h0 memo h h' :
  memo_sound h0 memo h -> extends h h' -> memo_sound h0 memo h'.
Proof.
  unfold memo_sound. intros Hm Hext. apply Forall_impl with (2 := Hm).
  intros [r r'] [H1 [H2 H3]]. cbn [fst snd] in *.
  pose proof (extends_length Hext). repeat split; try lia.
  rewrite (extends_value Hext) by lia. exact H3.
Qed.

Lemma memo_get_in memo r r' : memo_get memo r = Some r' -> In (r, r') memo.
Proof.
  unfold memo_get. intros H.
  destruct (find (fun p => fst p =? r) memo) as [[a b] |] eqn:Hf; [| discriminate].
  cbn in H. injection H as <-. apply find_some in Hf.
  destruct Hf as [Hin Heq]. cbn in Heq. apply Nat.eqb_eq in Heq. subst a.
  exact Hin.
Qed.

(** What the copy of a list of variables returns. *)
Lemma deepcopy_refs_spec h0 refs : forall memo h refs' memo' h',
  extends h0 h ->
  memo_sound h0 memo h ->
  Forall (fun r => r < length h0) refs ->
  deepcopy_refs memo h refs = (refs', memo', h') ->
  extends h h'
  /\ memo_sound h0 memo' h'
  /\ incl memo memo'
  /\ Forall2 (fun r r' => In (r, r') memo') refs refs'.
Proof.
  induction refs as [| r rest IH]; intros memo h refs' memo' h' Hext Hm Hall Hrun.
  - cbn in Hrun. injection Hrun as H1 H2 H3. subst refs' memo' h'.
    repeat split; [apply extends_refl | exact Hm | apply incl_refl | constructor].
  - inversion Hall as [| ? ? Hr Hrest]; subst.
    cbn [deepcopy_refs] in Hrun.
    destruct (memo_get memo r) as [r1 |] eqn:Hget.
    + destruct (deepcopy_refs memo h rest) as [[rest' memo1] h1] eqn:Hrec.
      injection Hrun as H1 H2 H3. subst refs' memo' h'.
      destruct (IH memo h rest' memo1 h1 Hext Hm Hrest Hrec)
        as [Hext1 [Hm1 [Hincl Hall2]]].
      repeat split; try assumption.
      constructor; [| exact Hall2]. apply Hincl. apply memo_get_in. exact Hget.
    + unfold Variable_ in Hrun. cbv beta iota in Hrun.
      destruct (deepcopy_refs _ _ rest) as [[rest' memo1] h1] eqn:Hrec.
      injection Hrun as H1 H2 H3. subst refs' memo' h'.
      assert (Hstep : extends h (h ++ [value h r])) by (eexists; reflexivity).
      assert (Hm' : memo_sound h0 ((r, length h) :: memo) (h ++ [value h r])).
      { constructor.
        - cbn [fst snd]. pose proof (extends_length Hext).
          repeat split; try lia.
          + rewrite length_app. cbn. lia.
          + rewrite value_new. apply extends_value; assumption.
        - apply memo_sound_extends with h; assumption. }
      destruct (IH _ _ rest' memo1 h1 (extends_trans Hext Hstep) Hm' Hrest Hrec)
        as [Hext1 [Hm1 [Hincl Hall2]]].
      repeat split.
      * apply extends_trans with (h ++ [value h r]); assumption.
      * exact Hm1.
      * intros p Hp. apply Hincl. right. exact Hp.
      * constructor; [| exact Hall2]. apply Hincl. left. reflexivity.
Qed.

Lemma copied_values h0 memo h refs refs' :
  memo_sound h0 memo h ->
  Forall2 (fun r r' => In (r, r') memo) refs refs' ->
  map (value h) refs' = map (value h0) refs
  /\ Forall (fun r' => length h0 <= r' < length h) refs'.
Proof.
  intros Hm. unfold memo_sound in Hm. rewrite Forall_forall in Hm.
  induction 1 as [| r r' refs refs' Hin _ [IH1 IH2]]; [split; [reflexivity | constructor] |].
  destruct (Hm _ Hin) as [_ [Hfresh Hval]]. cbn [fst snd] in *.
  split.
  - cbn [map]. rewrite Hval, IH1. reflexivity.
  - constructor; assumption.
Qed.

Lemma Forall2_in_incl (A B : Type) (l1 l2 : list (A * B)) la lb :
  incl l1 l2 ->
  Forall2 (fun a b => In (a, b) l1) la lb ->
  Forall2 (fun a b => In (a, b) l2) la lb.
Proof.
  intros Hincl H. induction H; constructor; auto.
Qed.

Lemma memo_get_cons r r' memo x :
  memo_get ((r, r') :: memo) x = if r =? x then Some r' else memo_get memo x.
Proof.
  unfold memo_get. cbn [find fst]. destruct (r =? x); reflexivity.
Qed.

(** The memo only grows, and every variable of the list is found in it
    with its copy. *)
Lemma deepcopy_refs_lookup refs : forall memo h refs' memo' h',
  deepcopy_refs memo h refs = (refs', memo', h') ->
  (forall x x', memo_get memo x = Some x' -> memo_get memo' x = Some x')
  /\ Forall2 (fun r r' => memo_get memo' r = Some r') refs refs'.
Proof.
  induction refs as [| r rest IH]; intros memo h refs' memo' h' Hrun.
  - cbn in Hrun. injection Hrun as H1 H2 H3. subst refs' memo' h'.
    split; [intros x x' H; exact H | constructor].
  - cbn [deepcopy_refs] in Hrun.
    destruct (memo_get memo r) as [r1 |] eqn:Hget.
    + destruct (deepcopy_refs memo h rest) as [[rest' memo1] h1] eqn:Hrec.
      injection Hrun as H1 H2 H3. subst refs' memo' h'.
      destruct (IH memo h rest' memo1 h1 Hrec) as [Hmono Hall].
      split; [exact Hmono |].
      constructor; [apply Hmono; exact Hget | exact Hall].
    + unfold Variable_ in Hrun. cbv beta iota in Hrun.
      destruct (deepcopy_refs _ _ rest) as [[rest' memo1] h1] eqn:Hrec.
      injection Hrun as H1 H2 H3. subst refs' memo' h'.
      destruct (IH _ _ rest' memo1 h1 Hrec) as [Hmono Hall].
      split.
      * intros x x' Hx. apply Hmono. rewrite memo_get_cons.
        destruct (Nat.eqb_spec r x) as [-> | Hne]; [congruence | exact Hx].
      * constructor; [| exact Hall].
        apply Hmono. rewrite memo_get_cons, Nat.eqb_refl. reflexivity.
Qed.

Lemma lookup_mono (memo memo' : list (ref * ref)) refs refs' :
  (forall x x', memo_get memo x = Some x' -> memo_get memo' x = Some x') ->
  Forall2 (fun r r' => memo_get memo r = Some r') refs refs' ->
  Forall2 (fun r r' => memo_get memo' r = Some r') refs refs'.
Proof. intros Hmono H. induction H; constructor; auto. Qed.

Lemma lookup_functional (memo : list (ref * ref)) refs a b :
  Forall2 (fun r r' => memo_get memo r = Some r') refs a ->
  Forall2 (fun r r' => memo_get memo r = Some r') refs b ->
  a = b.
Proof.
  intros Ha. revert b. induction Ha as [| r r' refs a Hr _ IH]; intros b Hb.
  - inversion Hb. reflexivity.
  - inversion Hb as [| ? r'' ? b' Hr' Hb']; subst.
    rewrite Hr in Hr'. injection Hr' as <-. f_equal. apply IH. exact Hb'.
Qed.

Lemma allocated_weights self h :
  allocated self h -> Forall (fun r => r < length h) (_weights self).
Proof.
  unfold allocated. intros H. apply Forall_app in H. exact (proj1 H).
Qed.

Lemma allocated_bias self h :
  allocated self h -> Forall (fun r => r < length h) (_bias self).
Proof.
  unfold allocated. intros H. apply Forall_app in H. destruct H as [_ H].
  apply Forall_app in H. exact (proj1 H).
Qed.


Lemma allocated_target : allocated Examples.target_object Examples.store24.
Proof.
  unfold allocated. apply Forall_forall. intros r Hr. cbn in Hr.
  repeat (destruct Hr as [<- | Hr]; [cbn; lia |]). contradiction.
Qed.

Lemma objects_apart r :
  In r (_weights Examples.target_object ++ _bias Examples.target_object) ->
  ~ In r (_variables Examples.online_object).
Proof.
  intros Hr Hin.
  assert (H1 : 12 <= r).
  { cbn in Hr. repeat (destruct Hr as [<- | Hr]; [lia |]). contradiction. }
  assert (H2 : r < 12).
  { cbn in Hin. repeat (destruct Hin as [<- | Hin]; [lia |]). contradiction. }
  lia.
Qed.



End CopyExtras.

(** ** The input of the network *)

Module FeatureExtras.

Import State Snapshot Features.

Lemma same_numbers_refl u : same_numbers u u.
Proof.
  unfold same_numbers. induction u as [| x u IH]; constructor;
    [apply Qeq_refl | exact IH].
Qed.

Lemma same_numbers_app u u' v v' :
  same_numbers u u' -> same_numbers v v' -> same_numbers (u ++ v) (u' ++ v').
Proof. unfold same_numbers. apply Forall2_app. Qed.




End FeatureExtras.
